(** * swirlyswirls: emitters, zones and particle glue

    A shallow embedding of [swirlyswirls/compsys.py] and
    [swirlyswirls/zones.py].  Python floats are idealised: rationals
    ([Q]) wherever the code only adds, multiplies, compares and
    truncates, so that the systems can be run on concrete frames; real
    numbers ([R]) for [ZoneBeam], whose constructor normalises a vector
    and therefore needs a square root. *)

From Stdlib Require Import ZArith QArith Qminmax Qabs List Bool Lia Lqa.
From Stdlib Require Import Reals Lra.
From stdpp Require Import base option gmap.

Import ListNotations.
Local Open Scope Q_scope.

(** ** pygame: [Vector2] and [Rect] *)

Record Vector2 := Vec { vx : Q; vy : Q }.

Definition vzero : Vector2 := Vec 0 0.
Definition vadd (a b : Vector2) : Vector2 := Vec (vx a + vx b) (vy a + vy b).
Definition vsub (a b : Vector2) : Vector2 := Vec (vx a - vx b) (vy a - vy b).
Definition vscale (a : Vector2) (k : Q) : Vector2 := Vec (vx a * k) (vy a * k).

(** Equality of vectors as numbers ([Q] is a setoid: 1/2 and 2/4 are
    different terms for the same number). *)
Definition veq (a b : Vector2) : Prop := vx a == vx b /\ vy a == vy b.

(** [pygame.Rect]: integer fields; [right], [bottom] and [center] are
    derived the way pygame derives them. *)
Record Rect := { left : Z; top : Z; width : Z; height : Z }.

Definition right (r : Rect) : Z := (left r + width r)%Z.
Definition bottom (r : Rect) : Z := (top r + height r)%Z.
Definition center (r : Rect) : Vector2 :=
  Vec (inject_Z (left r + Z.quot (width r) 2)) (inject_Z (top r + Z.quot (height r) 2)).

(** Python's [int(x)] on a float: truncation toward zero. *)
Definition int (q : Q) : Z := Z.quot (Qnum q) (Zpos (Qden q)).

(** [n] is [x] truncated toward zero. *)
Definition truncates (x : Q) (n : Z) : Prop :=
  (0 <= x -> inject_Z n <= x /\ x < inject_Z n + 1)
  /\ (x <= 0 -> inject_Z n - 1 < x /\ x <= inject_Z n).

Definition _lerp (a b t : Q) : Q := (1 - t) * a + b * t.

(** ** pgcooldown: [Cooldown] and [LerpThing] *)

Module Cooldown.

(** Modelled from the spec: the countdown timer capability of
    pgcooldown, which is imported by compsys.py but is not part of
    this repository.  A timer remembers its [duration] and the
    wall-clock instant [t0] at which it was (re)started; every query
    takes the current instant [now]. *)
Record t := Make { duration : Q; t0 : Q }.

Definition temperature (c : t) (now : Q) : Q := duration c - (now - t0 c).

(** Cold = expired: the countdown has reached zero. *)
Definition cold (c : t) (now : Q) : bool := Qle_bool (temperature c now) 0.
Definition hot (c : t) (now : Q) : bool := negb (cold c now).

(** [Cooldown(duration, cold=cold)] built at instant [now]. *)
Definition new (d : Q) (start_cold : bool) (now : Q) : t :=
  if start_cold then Make d (now - d) else Make d now.

(** [c.reset(new_duration)] at instant [now]. *)
Definition reset (c : t) (d : Q) (now : Q) : t := Make d now.

(** Progress in [0,1]. *)
Definition normalized (c : t) (now : Q) : Q :=
  Qmin 1 (Qmax 0 ((now - t0 c) / duration c)).

End Cooldown.

Module LerpThing.

(** Modelled from the spec: the interpolated-value driver of
    pgcooldown (not part of this repository).  A zero duration means
    unbounded: the start value is used. *)
Record t := Make { vt0 : Q; vt1 : Q; duration : Cooldown.t; ease : Q -> Q }.

Definition new (v0 v1 d : Q) (e : Q -> Q) (now : Q) : t :=
  Make v0 v1 (Cooldown.new d false now) e.

(** [lt()] at instant [now]. *)
Definition call (lt : t) (now : Q) : Q :=
  if Qeq_bool (Cooldown.duration (duration lt)) 0 then vt0 lt
  else _lerp (vt0 lt) (vt1 lt) (ease lt (Cooldown.normalized (duration lt) now)).

(** [lt.v] at instant [now]. *)
Definition v (lt : t) (now : Q) : Q := call lt now.

End LerpThing.

(** ** itertools.cycle *)

(** [cycle(iterable)] over a non-empty iterable: the saved elements and
    the position of the element that [next] returns.  [__post_init__]
    never builds a cycle over an empty list, so the type has no empty
    inhabitant: [c_first :: c_rest] are the saved elements. *)
Record cycle := Cycle { c_first : Q; c_rest : list Q; c_pos : nat }.

Definition cycle_of (x : Q) (xs : list Q) : cycle := Cycle x xs 0.

Definition saved (c : cycle) : list Q := c_first c :: c_rest c.

Definition next (c : cycle) : Q * cycle :=
  (nth (c_pos c) (saved c) (c_first c),
   Cycle (c_first c) (c_rest c) (Nat.modulo (S (c_pos c)) (length (saved c)))).

(** The first [k] values that a ticker yields. *)
Fixpoint ticks (k : nat) (c : cycle) : list Q :=
  match k with
  | O => []
  | S k' => fst (next c) :: ticks k' (snd (next c))
  end.

(** ** tinyecs: the entity registry, as far as [emitter_system] reads it *)

(** Modelled from the spec: the entity registry capability of tinyecs
    (not part of this repository), reduced to the two component kinds
    that [emitter_system] asks for by entity id, together with the wall
    clock that every [Cooldown] reads. *)
Record World := {
  now : Q;
  lifetime : gmap nat Cooldown.t;
  momentum : gmap nat Vector2
}.

(** [ecs.eid_has(eid, 'lifetime')] and [ecs.eid_has(eid, 'momentum')];
    [ecs.comp_of_eid] is the lookup itself. *)
Definition eid_has_lifetime (w : World) (eid : nat) : bool :=
  bool_decide (is_Some (lifetime w !! eid)).
Definition eid_has_momentum (w : World) (eid : nat) : bool :=
  bool_decide (is_Some (momentum w !! eid)).

(** ** zones.py: the [Zone] interface *)

(** A zone is anything with an [emit] method returning a position and
    a momentum.  Sampling draws from the zone's random functions, so
    [emit] also returns the zone after the draw. *)
Class Zone (zone_t : Type) := emit : zone_t -> Q -> Vector2 * Vector2 * zone_t.

(** ** compsys.py: [Emitter] *)

(** The state of an emitter.  [tick] is the heartbeat timer, [ticker]
    the cycle over [ticklist] and [remaining] the emit budget (-1 when
    [total_emits] is [None]).  The [particle_factory] field is a
    callback that the system only calls; its calls are recorded, with
    their arguments, in the [Call] log below. *)
Record Emitter (zone_t : Type) := {
  ept : LerpThing.t;
  tick : Cooldown.t;
  ticker : cycle;
  remaining : Z;
  zone : zone_t;
  inherit_momentum : Z
}.
Arguments ept {zone_t} _.
Arguments tick {zone_t} _.
Arguments ticker {zone_t} _.
Arguments remaining {zone_t} _.
Arguments zone {zone_t} _.
Arguments inherit_momentum {zone_t} _.

(** What a dataclass constructor can do: return the object or raise. *)
Inductive constructed (A : Type) : Type :=
| Built (a : A)
| Raised.
Arguments Built {A} a.
Arguments Raised {A}.

(** [Emitter.__post_init__], run at instant [now0].  [total_emits] is
    [None] by default. *)
Definition post_init {zone_t} (ept0 : LerpThing.t) (tick0 : Q) (ticklist : list Q)
    (total_emits : option Z) (zone0 : zone_t) (inherit : Z) (now0 : Q) : Emitter zone_t :=
  {| ept := ept0;
     tick := Cooldown.new tick0 true now0;
     ticker := match ticklist with
               | x :: xs => cycle_of x xs
               | [] => cycle_of tick0 []
               end;
     remaining := match total_emits with Some n => n | None => (-1)%Z end;
     zone := zone0;
     inherit_momentum := inherit |}.

(** [Emitter(ept=..., tick=..., ticklist=..., ...)]: the generated
    [__init__] stores the fields and calls [__post_init__], which has no
    [raise]. *)
Definition Emitter_new {zone_t} (ept0 : LerpThing.t) (tick0 : Q) (ticklist : list Q)
    (total_emits : option Z) (zone0 : zone_t) (inherit : Z) (now0 : Q)
  : constructed (Emitter zone_t) :=
  Built (post_init ept0 tick0 ticklist total_emits zone0 inherit now0).

(** ** compsys.py: [emitter_system] *)

(** The calls that an update makes to its two callbacks, in order. *)
Inductive Call :=
| ZoneEmit (t : Q)
| ParticleFactory (t : Q) (position : Vector2) (momentum : Vector2).

Definition is_factory_call (c : Call) : bool :=
  match c with ParticleFactory _ _ _ => true | ZoneEmit _ => false end.

Definition call_t (c : Call) : Q :=
  match c with ZoneEmit t => t | ParticleFactory t _ _ => t end.

(** Python truth value of an [int]. *)
Definition truthy (n : Z) : bool := negb (n =? 0)%Z.

Section EmitterSystem.
Context {zone_t : Type} `{Zone zone_t}.

Definition set_tick (e : Emitter zone_t) (c : Cooldown.t) (k : cycle) : Emitter zone_t :=
  {| ept := ept e; tick := c; ticker := k; remaining := remaining e;
     zone := zone e; inherit_momentum := inherit_momentum e |}.
Definition set_remaining (e : Emitter zone_t) (n : Z) : Emitter zone_t :=
  {| ept := ept e; tick := tick e; ticker := ticker e; remaining := n;
     zone := zone e; inherit_momentum := inherit_momentum e |}.
Definition set_zone (e : Emitter zone_t) (z : zone_t) : Emitter zone_t :=
  {| ept := ept e; tick := tick e; ticker := ticker e; remaining := remaining e;
     zone := z; inherit_momentum := inherit_momentum e |}.

(** Lines 160-169: the normalized time [t] of this tick, or [None]
    when the update returns because a valid duration is cold. *)
Definition emission_time (w : World) (eid : nat) (e : Emitter zone_t) : option Q :=
  let d := LerpThing.duration (ept e) in
  if negb (Qeq_bool (Cooldown.duration d) 0) then
    if Cooldown.cold d (now w) then None
    else Some (Cooldown.normalized d (now w))
  else
    match lifetime w !! eid with
    | Some l => Some (Cooldown.normalized l (now w))
    | None => Some 0
    end.

(** Lines 177-180: the entity's momentum component when bit 0 is set
    and [ecs.eid_has(eid, 'momentum')], the zero vector otherwise. *)
Definition entity_momentum (w : World) (eid : nat) (e : Emitter zone_t) : Vector2 :=
  if truthy (Z.land (inherit_momentum e) 1) then
    match momentum w !! eid with
    | Some m => m
    | None => Vec 0 0
    end
  else Vec 0 0.

(** Lines 185-189: the momentum handed to the factory. *)
Definition compose_momentum (inherit : Z) (e_momentum z_momentum : Vector2) : Vector2 :=
  let m := vzero in
  let m := if truthy (Z.land inherit 1) then vadd m e_momentum else m in
  let m := if truthy (Z.land inherit 2) then vadd m z_momentum else m in
  m.

(** Lines 182-191: [for i in range(emits)]. *)
Fixpoint spawn (emits : nat) (t : Q) (inherit : Z) (position e_momentum : Vector2)
    (z : zone_t) : zone_t * list Call :=
  match emits with
  | O => (z, [])
  | S n =>
      let '(z_position, z_momentum, z1) := emit z t in
      let m := compose_momentum inherit e_momentum z_momentum in
      let '(z2, calls) := spawn n t inherit position e_momentum z1 in
      (z2, ZoneEmit t :: ParticleFactory t (vadd position z_position) m :: calls)
  end.

(** What [n] successive calls of [zone.emit(t)] return. *)
Fixpoint samples (n : nat) (t : Q) (z : zone_t) : list (Vector2 * Vector2) :=
  match n with
  | O => []
  | S n' => let '(z_position, z_momentum, z1) := emit z t in
            (z_position, z_momentum) :: samples n' t z1
  end.

(** [emitter_system(dt, eid, emitter, position)]: the emitter after
    the update and the callback calls it made. *)
Definition emitter_system (w : World) (dt : Q) (eid : nat) (e : Emitter zone_t)
    (position : Vector2) : Emitter zone_t * list Call :=
  if Cooldown.hot (tick e) (now w) then (e, [])
  else
    let '(interval, k) := next (ticker e) in
    let e := set_tick e (Cooldown.reset (tick e) interval (now w)) k in
    if (remaining e =? 0)%Z then (e, [])
    else
      match emission_time w eid e with
      | None => (e, [])
      | Some t =>
          let emits := int (LerpThing.call (ept e) (now w)) in
          let '(emits, e) :=
            if (remaining e >? 0)%Z then
              let emits := Z.min emits (remaining e) in
              (emits, set_remaining e (remaining e - emits)%Z)
            else (emits, e) in
          let e_momentum := entity_momentum w eid e in
          let '(z, calls) :=
            spawn (Z.to_nat emits) t (inherit_momentum e) position e_momentum (zone e) in
          (set_zone e z, calls)
      end.

(** One frame as the registry presents it to the system. *)
Record Frame := { f_world : World; f_dt : Q; f_eid : nat; f_position : Vector2 }.

Definition update (e : Emitter zone_t) (f : Frame) : Emitter zone_t * list Call :=
  emitter_system (f_world f) (f_dt f) (f_eid f) e (f_position f).

(** A sequence of updates of one emitter: the final emitter and the
    calls of each frame. *)
Fixpoint run (e : Emitter zone_t) (fs : list Frame) : Emitter zone_t * list (list Call) :=
  match fs with
  | [] => (e, [])
  | f :: fs' =>
      let '(e1, calls) := update e f in
      let '(e2, rest) := run e1 fs' in
      (e2, calls :: rest)
  end.

(** The counter after each frame of a run. *)
Fixpoint remaining_history (e : Emitter zone_t) (fs : list Frame) : list Z :=
  match fs with
  | [] => []
  | f :: fs' => let e1 := fst (update e f) in remaining e1 :: remaining_history e1 fs'
  end.

(** The wall clock never runs backwards from [t] on. *)
Fixpoint chronological (t : Q) (fs : list Frame) : Prop :=
  match fs with
  | [] => True
  | f :: fs' => t <= now (f_world f) /\ chronological (now (f_world f)) fs'
  end.

(** The number of particles an update asked the factory for. *)
Definition spawned (calls : list Call) : nat :=
  length (List.filter is_factory_call calls).

(** The emission rate never evaluates to a negative count. *)
Definition nonneg_rate (e : Emitter zone_t) : Prop :=
  forall t : Q, (0 <= int (LerpThing.call (ept e) t))%Z.

(** The emission window has a positive duration and is over at [t]. *)
Definition expired (e : Emitter zone_t) (t : Q) : Prop :=
  0 < Cooldown.duration (LerpThing.duration (ept e))
  /\ Cooldown.cold (LerpThing.duration (ept e)) t = true.

End EmitterSystem.

(** Spec 4.2, steps 7 and 8, in the spec's words: the entity's own
    contribution and the zone's contribution to a particle's momentum. *)
Definition entity_contribution (w : World) (eid : nat) (inherit : Z) : Vector2 :=
  match momentum w !! eid with
  | Some m => if Z.testbit inherit 0 then m else vzero
  | None => vzero
  end.

Definition zone_contribution (inherit : Z) (z_momentum : Vector2) : Vector2 :=
  if Z.testbit inherit 1 then z_momentum else vzero.

Fixpoint non_increasing (l : list Z) : Prop :=
  match l with
  | a :: l' => match l' with b :: _ => (b <= a)%Z | [] => True end /\ non_increasing l'
  | [] => True
  end.

(** The zone of the scenarios: every sample sits on the anchor and has
    momentum (0,3). *)
Inductive ScenarioZone := scenario_zone.

#[export] Instance ScenarioZone_Zone : Zone ScenarioZone :=
  fun z _ => (Vec 0 0, Vec 0 3, z).

(** The entity of the scenarios: id 0, momentum (5,0), no lifetime. *)
Definition scenario_world (t : Q) : World :=
  {| now := t; lifetime := ∅; momentum := {[ 0%nat := Vec 5 0 ]} |}.

Definition scenario_frame (t : Q) : Frame :=
  {| f_world := scenario_world t; f_dt := 1#10; f_eid := 0%nat; f_position := Vec 0 0 |}.

(** [Emitter(ept=LerpThing(rate, rate, 0), ticklist=[0.1],
    total_emits=total, zone=..., inherit_momentum=3)] built at instant 0. *)
Definition scenario_emitter (rate : Q) (total : option Z) : Emitter ScenarioZone :=
  post_init (LerpThing.new rate rate 0 (fun x => x) 0) (1#10) [1#10] total
    scenario_zone 3 0.


(** [Emitter(ept=LerpThing(2, 5, window), ticklist=[0.1], zone=...)]
    built at instant 0: unlimited, emitting for [window] seconds. *)
Definition window_emitter (window : Q) : Emitter ScenarioZone :=
  post_init (LerpThing.new 2 5 window (fun x => x) 0) (1#10) [1#10] None
    scenario_zone 3 0.

(** ** zones.py: random functions *)

(** [rnd_p] and [rnd_m] are parameterless callables: each call returns
    the next value of some sequence.  [draws] is that sequence and
    [drawn] counts the calls made so far. *)
Record Rnd (A : Type) := { draws : nat -> A; drawn : nat }.
Arguments draws {A} _ _.
Arguments drawn {A} _.

Definition draw {A} (g : Rnd A) : A * Rnd A :=
  (draws g (drawn g), {| draws := draws g; drawn := S (drawn g) |}).

(** ** zones.py: [ZoneRect] *)

Module ZoneRect.

Record t := Make { r : Rect; rnd_p : Rnd Q; rnd_m : Rnd Q }.

(** [ZoneRect.emit]: both coordinates come from [rnd_p], x first. *)
Definition emit (z : t) (time : Q) : Vector2 * Vector2 * t :=
  let '(p1, g) := draw (rnd_p z) in
  let '(p2, g) := draw g in
  let pos := Vec (inject_Z (int (inject_Z (width (r z)) * (p1 - (1#2)))))
                 (inject_Z (int (inject_Z (height (r z)) * (p2 - (1#2))))) in
  let momentum := vsub pos (center (r z)) in
  (pos, momentum, Make (r z) g (rnd_m z)).

End ZoneRect.

#[export] Instance ZoneRect_Zone : Zone ZoneRect.t := ZoneRect.emit.

(** A rectangle of 3 by 5 whose position draws are 0.9, 0.2, 0.2, ... *)
Definition rect_demo : ZoneRect.t :=
  ZoneRect.Make {| left := 0; top := 0; width := 3; height := 5 |}
    {| draws := fun n => match n with O => 9#10 | _ => 2#10 end; drawn := 0 |}
    {| draws := fun _ => 0; drawn := 0 |}.

(** ** zones.py: [ZoneLine] *)

Module ZoneLine.

Record t := Make { v : Vector2; speed : Vector2; variance : Q; rnd_p : Rnd Q; rnd_m : Rnd Q }.

(** [ZoneLine.__post_init__]: a missing [speed] is the zero vector. *)
Definition new (v0 : Vector2) (speed0 : option Vector2) (variance0 : Q)
    (p m : Rnd Q) : t :=
  Make v0 (match speed0 with Some s => s | None => Vec 0 0 end) variance0 p m.

Definition emit (z : t) (time : Q) : Vector2 * Vector2 * t :=
  let '(p, gp) := draw (rnd_p z) in
  let pos := vscale (v z) p in
  let '(m, gm) := draw (rnd_m z) in
  let momentum := vscale (speed z) (1 + m * variance z) in
  (pos, momentum, Make (v z) (speed z) (variance z) gp gm).

End ZoneLine.

#[export] Instance ZoneLine_Zone : Zone ZoneLine.t := ZoneLine.emit.

(** ** zones.py: [ZoneBeam] *)

Module ZoneBeam.

Local Open Scope R_scope.

(** [Vector2] over the reals: the constructor calls [normalize]. *)
Record RVector2 := RVec { rx : R; ry : R }.

Definition radd (a b : RVector2) : RVector2 := RVec (rx a + rx b) (ry a + ry b).
Definition rscale (a : RVector2) (k : R) : RVector2 := RVec (rx a * k) (ry a * k).
Definition dot (a b : RVector2) : R := rx a * rx b + ry a * ry b.
Definition magnitude (a : RVector2) : R := sqrt (dot a a).

(** [Vector2.normalize]: raises [ValueError] on a vector of length zero. *)
Definition normalize (a : RVector2) : option RVector2 :=
  if Req_dec_T (magnitude a) 0 then None
  else Some (RVec (rx a / magnitude a) (ry a / magnitude a)).

Record t := Make { v : RVector2; w : RVector2; rnd_p : Rnd R; rnd_m : Rnd R }.

(** [ZoneBeam.__post_init__(v, width)]: [w] is [Vector2(v.y, v.x)]
    normalised and scaled by [width]. *)
Definition new (v0 : RVector2) (width0 : R) (p m : Rnd R) : option t :=
  match normalize (RVec (ry v0) (rx v0)) with
  | Some n => Some (Make v0 (rscale n width0) p m)
  | None => None
  end.

(** [ZoneBeam.emit(t)]: position [v + w] and momentum [w] of the
    sample; [t] is ignored. *)
Definition emit (z : t) (time : option R) : RVector2 * RVector2 * t :=
  let '(p, gp) := draw (rnd_p z) in
  let v1 := rscale (v z) p in
  let '(m, gm) := draw (rnd_m z) in
  let w1 := rscale (w z) (m - 1/2) in
  (radd v1 w1, w1, Make (v z) (w z) gp gm).

(** The position and the momentum of the next sample. *)
Definition sample (z : t) : RVector2 * RVector2 := fst (emit z None).

(** A random function that always returns [x]. *)
Definition const_rnd (x : R) : Rnd R := {| draws := fun _ => x; drawn := 0 |}.

End ZoneBeam.

(** ** compsys.py: [Particle] and [particle_rsai_system] *)

Record Particle := {
  rotate : option LerpThing.t;
  scale : option LerpThing.t;
  alpha : option LerpThing.t
}.

Module RSAImage.

(** Modelled from the spec: the renderable-image descriptor of tinyecs
    (not part of this repository): three visual channels and a lock. *)
Record t := Make { rotate : Q; scale : Q; alpha : Q; lock : bool }.

(** One attribute assignment on the descriptor. *)
Inductive Write :=
| SetLock (b : bool)
| SetRotate (q : Q)
| SetScale (q : Q)
| SetAlpha (q : Q).

Definition write (d : t) (a : Write) : t :=
  match a with
  | SetLock b => Make (rotate d) (scale d) (alpha d) b
  | SetRotate q => Make q (scale d) (alpha d) (lock d)
  | SetScale q => Make (rotate d) q (alpha d) (lock d)
  | SetAlpha q => Make (rotate d) (scale d) q (lock d)
  end.

Definition is_lock (a : Write) : bool :=
  match a with SetLock _ => true | _ => false end.

End RSAImage.

(** [if channel is not None: rsai.<field> = channel.v] *)
Definition push_channel (mk : Q -> RSAImage.Write) (channel : option LerpThing.t)
    (now0 : Q) : list RSAImage.Write :=
  match channel with
  | Some l => [mk (LerpThing.v l now0)]
  | None => []
  end.

(** The assignments of [particle_rsai_system], in program order. *)
Definition particle_rsai_writes (now0 : Q) (particle : Particle) : list RSAImage.Write :=
  [RSAImage.SetLock true]
  ++ push_channel RSAImage.SetRotate (rotate particle) now0
  ++ push_channel RSAImage.SetScale (scale particle) now0
  ++ push_channel RSAImage.SetAlpha (alpha particle) now0
  ++ [RSAImage.SetLock false].

(** [particle_rsai_system(dt, eid, particle, rsai)] at instant [now0]. *)
Definition particle_rsai_system (now0 : Q) (dt : Q) (eid : nat) (particle : Particle)
    (rsai : RSAImage.t) : RSAImage.t :=
  fold_left RSAImage.write (particle_rsai_writes now0 particle) rsai.

(** The descriptor after each assignment of a list. *)
Fixpoint observed (d : RSAImage.t) (ws : list RSAImage.Write) : list RSAImage.t :=
  match ws with
  | [] => []
  | a :: ws' => RSAImage.write d a :: observed (RSAImage.write d a) ws'
  end.

(** Repeated frames: one update per instant of [frames]. *)
Fixpoint particle_rsai_frames (frames : list Q) (particle : Particle)
    (rsai : RSAImage.t) : RSAImage.t :=
  match frames with
  | [] => rsai
  | t :: ts => particle_rsai_frames ts particle (particle_rsai_system t 0 0%nat particle rsai)
  end.

(** ** compsys.py: [container_system] *)

(** [tinyecs.components.ESprite], as far as the system reads it. *)
Record ESprite := { rect : Rect }.

Definition Qlt_bool (a b : Q) : bool := negb (Qle_bool b a).

(** [container_system(dt, eid, container, position, momentum, sprite)]:
    the position and the momentum after the update.  The second [if]
    reads the momentum as the first one left it. *)
Definition container_system (dt : Q) (eid : nat) (container : Rect)
    (position momentum0 : Vector2) (sprite : ESprite) : Vector2 * Vector2 :=
  let s := rect sprite in
  let '(position, momentum0) :=
    if (left s <? left container)%Z && Qlt_bool (vx momentum0) 0 then
      (Vec (vx position + inject_Z (-2 * left s)) (vy position),
       Vec (- vx momentum0) (vy momentum0))
    else if (right s >? right container)%Z && Qlt_bool 0 (vx momentum0) then
      (Vec (vx position + inject_Z (2 * (width container - right s))) (vy position),
       Vec (- vx momentum0) (vy momentum0))
    else (position, momentum0) in
  if (top s <? top container)%Z && Qlt_bool (vx momentum0) 0 then
    (Vec (vx position) (vy position + inject_Z (-2 * top s)),
     Vec (vx momentum0) (- vy momentum0))
  else if (bottom s >? bottom container)%Z && Qlt_bool 0 (vy momentum0) then
    (Vec (vx position) (vy position + inject_Z (2 * (height container - bottom s))),
     Vec (vx momentum0) (- vy momentum0))
  else (position, momentum0).


(** * Further definitions *)

(** ** compsys.py: what one update and a run of updates add up to *)

(** The calls of one [for] loop: [zone.emit(t)] and then
    [particle_factory(t=t, ...)], once per particle, all with the same
    [t]. *)
Fixpoint paired (t : Q) (calls : list Call) : Prop :=
  match calls with
  | [] => True
  | ZoneEmit t1 :: ParticleFactory t2 _ _ :: rest => t1 = t /\ t2 = t /\ paired t rest
  | _ => False
  end.

(** The particles spawned over the frames of a run. *)
Definition total_spawned (frames : list (list Call)) : nat :=
  fold_right (fun calls n => (spawned calls + n)%nat) 0%nat frames.

Section EmitterRuns.
Context {zone_t : Type} `{Zone zone_t}.

(** Lines 171-175: [emits] as the loop receives it at [instant]. *)
Definition emits_of (e : Emitter zone_t) (instant : Q) : Z :=
  let emits := int (LerpThing.call (ept e) instant) in
  if (remaining e >? 0)%Z then Z.min emits (remaining e) else emits.

(** Every frame of the run finds the tick timer cold. *)
Fixpoint all_cold (e : Emitter zone_t) (fs : list Frame) : Prop :=
  match fs with
  | [] => True
  | f :: fs' => Cooldown.cold (tick e) (now (f_world f)) = true
                /\ all_cold (fst (update e f)) fs'
  end.

(** The tick timer after each frame of a run. *)
Fixpoint tick_history (e : Emitter zone_t) (fs : list Frame) : list Cooldown.t :=
  match fs with
  | [] => []
  | f :: fs' => let e1 := fst (update e f) in tick e1 :: tick_history e1 fs'
  end.

End EmitterRuns.

(** [Emitter(ept=LerpThing(2, 2, 0), tick=0.1, ticklist=[0.1, 0.2], ...)]
    built at instant 0. *)
Definition stacking_emitter : Emitter ScenarioZone :=
  post_init (LerpThing.new 2 2 0 (fun x => x) 0) (1#10) [1#10; 2#10] None
    scenario_zone 3 0.

(** The scenario entity on the clock 0, 0.1, 0.2, 0.3, 0.4. *)
Definition scenario_clock : list Frame :=
  map scenario_frame [0; 1#10; 2#10; 3#10; 4#10].

(** ** compsys.py: one channel of [particle_rsai_system] *)

(** The value of a channel after the update at instant [t]: the
    driver's if there is one, the old one otherwise. *)
Definition channel (driver : option LerpThing.t) (t old : Q) : Q :=
  match driver with Some l => LerpThing.v l t | None => old end.

(** ** zones.py: [_inv_lerp] and [_remap] *)

(** [_inv_lerp]: the division raises [ZeroDivisionError] when [a] and
    [b] are the same number. *)
Definition _inv_lerp (a b v : Q) : option Q :=
  if Qeq_bool (b - a) 0 then None else Some ((v - a) / (b - a)).

(** [_remap]: [_lerp(b0, b1, _inv_lerp(a0, a1, v))]. *)
Definition _remap (a0 a1 b0 b1 v : Q) : option Q :=
  match _inv_lerp a0 a1 v with
  | Some t => Some (_lerp b0 b1 t)
  | None => None
  end.

(** A rectangle of 3 by 5 centred on the origin. *)
Definition centred_rect_demo : ZoneRect.t :=
  ZoneRect.Make {| left := -1; top := -2; width := 3; height := 5 |}
    {| draws := fun n => match n with O => 9#10 | _ => 2#10 end; drawn := 0 |}
    {| draws := fun _ => 0; drawn := 0 |}.

(** [ZoneLine(v=(10, 0), speed=(0, 4), variance=0.5)] with the draws
    0.25 for the position and 0.5 for the momentum. *)
Definition line_demo : ZoneLine.t :=
  ZoneLine.new (Vec 10 0) (Some (Vec 0 4)) (1#2)
    {| draws := fun _ => 1#4; drawn := 0 |}
    {| draws := fun _ => 1#2; drawn := 0 |}.

(** ** zones.py: [ZonePoint] and [ZoneCircle] *)

(** [pygame.Vector2.rotate(angle)], and [rotate_ip] on the vector
    itself: counterclockwise, by an angle in degrees. *)
Definition Vector2_rotate (a : ZoneBeam.RVector2) (degrees : R) : ZoneBeam.RVector2 :=
  let theta := (degrees * PI / 180)%R in
  ZoneBeam.RVec (ZoneBeam.rx a * cos theta - ZoneBeam.ry a * sin theta)%R
                (ZoneBeam.rx a * sin theta + ZoneBeam.ry a * cos theta)%R.

Module ZonePoint.

Local Open Scope R_scope.

(** [ZonePoint]: the class has no [rnd_p] or [rnd_m] field; both draws
    come from the module-level [random()], passed here as [random]. *)
Record t := Make { speed : R; phi0 : R; phi1 : R }.

(** [_lerp] of zones.py on the reals. *)
Definition _lerp (a b s : R) : R := (1 - s) * a + b * s.

(** [ZonePoint.emit(t)]: the first draw scales the speed, the second
    picks the angle. *)
Definition emit (z : t) (time : option R) (random : Rnd R)
  : ZoneBeam.RVector2 * ZoneBeam.RVector2 * Rnd R :=
  let '(s, g) := draw random in
  let momentum0 := ZoneBeam.RVec (speed z * s) 0 in
  let '(a, g) := draw g in
  let momentum0 := Vector2_rotate momentum0 (_lerp (phi0 z) (phi1 z) a) in
  (ZoneBeam.RVec 0 0, momentum0, g).

End ZonePoint.

Module ZoneCircle.

Local Open Scope R_scope.

Record t := Make { r0 : R; r1 : R; phi0 : R; phi1 : R; rnd_p : Rnd R; rnd_m : Rnd R }.

(** [ZoneCircle(rnd_p=p, rnd_m=m)]: radius 0 to 64, the full circle. *)
Definition default (p m : Rnd R) : t := Make 0 64 0 360 p m.

(** [ZoneCircle.emit(t)]: the radius is drawn from [rnd_p], the angle
    from the module-level [random()], passed here as [random]. *)
Definition emit (z : t) (time : option R) (random : Rnd R)
  : ZoneBeam.RVector2 * ZoneBeam.RVector2 * (t * Rnd R) :=
  let '(p, gp) := draw (rnd_p z) in
  let r := (r1 z - r0 z) * p + r0 z in
  let '(a, g) := draw random in
  let phi := (phi1 z - phi0 z) * a + phi0 z in
  let v := Vector2_rotate (ZoneBeam.RVec r 0) phi in
  (v, v, (Make (r0 z) (r1 z) (phi0 z) (phi1 z) gp (rnd_m z), g)).

End ZoneCircle.


(** * Properties *)

(** ** Arithmetic of the embedding *)

Lemma truthy_land_pow2 (n k : Z) :
  (0 <= k)%Z -> truthy (Z.land n (2 ^ k)) = Z.testbit n k.
Proof.
  intros Hk. unfold truthy. destruct (Z.testbit n k) eqn:B.
  - destruct (Z.eqb_spec (Z.land n (2 ^ k)) 0) as [E | E]; [| reflexivity].
    assert (Z.testbit (Z.land n (2 ^ k)) k = true) as T
      by (rewrite Z.land_spec, B, Z.pow2_bits_true by lia; reflexivity).
    rewrite E, Z.bits_0 in T. discriminate T.
  - assert (Z.land n (2 ^ k) = 0)%Z as ->; [| reflexivity].
    apply Z.bits_inj'. intros j Hj. rewrite Z.land_spec, Z.bits_0.
    destruct (Z.eq_dec j k) as [-> | Hne]; [rewrite B; reflexivity |].
    rewrite Z.pow2_bits_false by lia. apply andb_false_r.
Qed.

Lemma truthy_land_1 (n : Z) : truthy (Z.land n 1) = Z.testbit n 0.
Proof. exact (truthy_land_pow2 n 0 ltac:(lia)). Qed.

Lemma truthy_land_2 (n : Z) : truthy (Z.land n 2) = Z.testbit n 1.
Proof. exact (truthy_land_pow2 n 1 ltac:(lia)). Qed.

Lemma eid_has_lifetime_false (w : World) (eid : nat) :
  eid_has_lifetime w eid = false <-> lifetime w !! eid = None.
Proof.
  unfold eid_has_lifetime. rewrite bool_decide_eq_false, <- eq_None_not_Some. reflexivity.
Qed.

Lemma eid_has_momentum_false (w : World) (eid : nat) :
  eid_has_momentum w eid = false <-> momentum w !! eid = None.
Proof.
  unfold eid_has_momentum. rewrite bool_decide_eq_false, <- eq_None_not_Some. reflexivity.
Qed.

Lemma Qlt_bool_iff (a b : Q) : Qlt_bool a b = true <-> a < b.
Proof.
  unfold Qlt_bool. rewrite negb_true_iff. split; intros Hab.
  - apply Qnot_le_lt. intros Hle. apply Qle_bool_iff in Hle. congruence.
  - destruct (Qle_bool b a) eqn:E; [| reflexivity].
    apply Qle_bool_iff in E. exfalso. apply (Qlt_not_le _ _ Hab E).
Qed.

(** [int] truncates toward zero: the result lies between zero and the
    argument, less than one away from the argument. *)
Lemma int_trunc_nonneg (q : Q) :
  0 <= q -> inject_Z (int q) <= q /\ q < inject_Z (int q) + 1.
Proof.
  destruct q as [n d]. unfold int, Qle, Qlt, inject_Z. simpl. intros Hn.
  assert (0 <= n)%Z as Hn' by lia.
  pose proof (Z.quot_rem' n (Zpos d)) as Hqr.
  pose proof (Z.rem_bound_pos n (Zpos d) Hn' ltac:(lia)) as Hb.
  split; nia.
Qed.

Lemma int_trunc_nonpos (q : Q) :
  q <= 0 -> inject_Z (int q) - 1 < q /\ q <= inject_Z (int q).
Proof.
  destruct q as [n d]. unfold int, Qle, Qlt, inject_Z, Qminus, Qplus, Qopp. simpl.
  intros Hn. assert (n <= 0)%Z as Hn' by lia.
  pose proof (Z.quot_rem' n (Zpos d)) as Hqr.
  pose proof (Z.rem_bound_pos_neg n (Zpos d) ltac:(lia) ltac:(lia)) as Hb.
  split; nia.
Qed.

Lemma int_sign_nonneg (q : Q) : 0 <= q -> (0 <= int q)%Z.
Proof.
  destruct q as [n d]. unfold int, Qle. simpl. intros Hn.
  apply Z.quot_pos; lia.
Qed.

(** ** The emitter state machine *)

Ltac emitter_cases :=
  unfold update, emitter_system; cbn [next fst snd];
  repeat match goal with
    | |- context [if ?b then _ else _] => destruct b eqn:?
    | |- context [match emission_time ?w ?i ?e with _ => _ end] =>
        destruct (emission_time w i e) eqn:?
    | |- context [match spawn ?n ?t ?i ?p ?m ?z with _ => _ end] =>
        destruct (spawn n t i p m z) eqn:?
    end; cbn [fst snd].

Section EmitterFacts.
Context {zone_t : Type} `{Zone zone_t}.
Implicit Types (e : Emitter zone_t) (f : Frame) (w : World).

Lemma update_ept e f : ept (fst (update e f)) = ept e.
Proof. emitter_cases; reflexivity. Qed.

Lemma update_inherit e f : inherit_momentum (fst (update e f)) = inherit_momentum e.
Proof. emitter_cases; reflexivity. Qed.

Lemma update_hot e f :
  Cooldown.hot (tick e) (now (f_world f)) = true -> update e f = (e, []).
Proof. intros Hh. unfold update, emitter_system. rewrite Hh. reflexivity. Qed.

Lemma update_rearm e f :
  Cooldown.cold (tick e) (now (f_world f)) = true ->
  tick (fst (update e f))
    = Cooldown.reset (tick e) (fst (next (ticker e))) (now (f_world f))
  /\ ticker (fst (update e f)) = snd (next (ticker e)).
Proof.
  intros Hc. unfold update, emitter_system, Cooldown.hot. rewrite Hc.
  cbn [negb next fst snd].
  split; emitter_cases; reflexivity.
Qed.

Lemma update_exhausted e f :
  remaining e = 0%Z -> remaining (fst (update e f)) = 0%Z /\ snd (update e f) = [].
Proof.
  intros H0. unfold update, emitter_system. cbn [next].
  destruct (Cooldown.hot _ _); [auto |].
  cbn [set_tick remaining]. rewrite H0. cbn. auto.
Qed.

Lemma update_remaining e f :
  remaining (fst (update e f)) = remaining e
  \/ ((0 < remaining e)%Z
      /\ remaining (fst (update e f))
         = (remaining e
            - Z.min (int (LerpThing.call (ept e) (now (f_world f)))) (remaining e))%Z).
Proof.
  emitter_cases; cbn; auto.
  right. split; [| reflexivity].
  match goal with Hp : (_ >? 0)%Z = true |- _ => cbn in Hp; apply Z.gtb_lt in Hp; exact Hp end.
Qed.

Lemma update_nonneg_rate e f : nonneg_rate e -> nonneg_rate (fst (update e f)).
Proof. unfold nonneg_rate. rewrite update_ept. auto. Qed.

Lemma update_non_increasing e f :
  nonneg_rate e -> (remaining (fst (update e f)) <= remaining e)%Z.
Proof.
  intros Hr. destruct (update_remaining e f) as [-> | [Hpos ->]]; [lia |].
  specialize (Hr (now (f_world f))). lia.
Qed.

Lemma update_unlimited e f :
  (remaining e < 0)%Z -> remaining (fst (update e f)) = remaining e.
Proof. intros Hn. destruct (update_remaining e f) as [-> | [Hpos _]]; [reflexivity | lia]. Qed.

Lemma spawn_factory_count n t i p m (z : zone_t) :
  spawned (snd (spawn n t i p m z)) = n.
Proof.
  revert z. induction n as [| n IH]; intros z; cbn; [reflexivity |].
  destruct (emit z t) as [[zp zm] z1]. specialize (IH z1).
  destruct (spawn n t i p m z1) as [z2 calls]. cbn in *. now rewrite IH.
Qed.

Lemma spawn_call_t n t i p m (z : zone_t) :
  Forall (fun c => call_t c = t) (snd (spawn n t i p m z)).
Proof.
  revert z. induction n as [| n IH]; intros z; cbn; [constructor |].
  destruct (emit z t) as [[zp zm] z1]. specialize (IH z1).
  destruct (spawn n t i p m z1) as [z2 calls]. cbn in *.
  repeat constructor. exact IH.
Qed.

Lemma spawn_momenta n t i p m (z : zone_t) :
  Forall (fun c => match c with
                   | ZoneEmit _ => True
                   | ParticleFactory _ _ pm =>
                       exists z0 : zone_t, pm = compose_momentum i m (snd (fst (emit z0 t)))
                   end) (snd (spawn n t i p m z)).
Proof.
  revert z. induction n as [| n IH]; intros z; cbn; [constructor |].
  destruct (emit z t) as [[zp zm] z1] eqn:E. specialize (IH z1).
  destruct (spawn n t i p m z1) as [z2 calls]. cbn in *.
  constructor; [exact I |]. constructor; [| exact IH].
  exists z. rewrite E. reflexivity.
Qed.

(** The loop calls the zone and then the factory, once per sample. *)
Lemma spawn_calls n t i p m (z : zone_t) :
  snd (spawn n t i p m z)
  = flat_map (fun s => [ZoneEmit t;
                        ParticleFactory t (vadd p (fst s)) (compose_momentum i m (snd s))])
      (samples n t z).
Proof.
  revert z. induction n as [| n IH]; intros z; cbn [spawn samples]; [reflexivity |].
  destruct (emit z t) as [[zp zm] z1]. specialize (IH z1).
  destruct (spawn n t i p m z1) as [z2 calls]. cbn in *. now rewrite IH.
Qed.

(** Calls of an update: either none, or those of one [spawn] loop. *)
Lemma update_calls e f :
  snd (update e f) = []
  \/ exists t n z,
      emission_time (f_world f) (f_eid f) e = Some t
      /\ snd (update e f)
         = snd (spawn n t (inherit_momentum e) (f_position f)
                  (entity_momentum (f_world f) (f_eid f) e) z).
Proof.
  emitter_cases; auto.
  all: right.
  all: match goal with
       | Ht : emission_time _ _ _ = Some ?t, Hs : spawn ?n _ _ _ _ ?z = _ |- _ =>
           exists t, n, z; split; [exact Ht | symmetry; exact (f_equal snd Hs)]
       end.
Qed.

(** The calls of an update, sample by sample. *)
Lemma update_calls_samples e f :
  exists t n,
    snd (update e f)
    = flat_map (fun s => [ZoneEmit t;
                          ParticleFactory t (vadd (f_position f) (fst s))
                            (compose_momentum (inherit_momentum e)
                               (entity_momentum (f_world f) (f_eid f) e) (snd s))])
        (samples n t (zone e)).
Proof.
  emitter_cases; try (exists 0, 0%nat; reflexivity).
  all: match goal with
       | Hs : spawn ?n ?t _ _ _ _ = _ |- _ =>
           exists t, n; rewrite <- spawn_calls; symmetry; exact (f_equal snd Hs)
       end.
Qed.

Lemma cold_later (c : Cooldown.t) (t t' : Q) :
  Cooldown.cold c t = true -> t <= t' -> Cooldown.cold c t' = true.
Proof.
  unfold Cooldown.cold, Cooldown.temperature. rewrite !Qle_bool_iff.
  intros Hc Ht. Lqa.lra.
Qed.

Lemma expired_later e t t' : expired e t -> t <= t' -> expired e t'.
Proof. intros [Hd Hc] Ht. split; [exact Hd | exact (cold_later _ _ _ Hc Ht)]. Qed.

Lemma expired_no_time e w eid : expired e (now w) -> emission_time w eid e = None.
Proof.
  intros [Hd Hc]. unfold emission_time. rewrite Hc.
  destruct (Qeq_bool _ 0) eqn:E; [| reflexivity].
  apply Qeq_bool_iff in E. rewrite E in Hd. exfalso. exact (Qlt_irrefl 0 Hd).
Qed.

Lemma update_expired e f :
  expired e (now (f_world f)) ->
  snd (update e f) = [] /\ expired (fst (update e f)) (now (f_world f)).
Proof.
  intros He. split.
  - destruct (update_calls e f) as [-> | (t & n & z & Ht & _)]; [reflexivity |].
    rewrite expired_no_time in Ht by exact He. discriminate Ht.
  - unfold expired. rewrite update_ept. exact He.
Qed.

Lemma run_exhausted e fs :
  remaining e = 0%Z ->
  Forall (eq 0%Z) (remaining_history e fs) /\ Forall (eq []) (snd (run e fs)).
Proof.
  revert e. induction fs as [| f fs IH]; intros e H0; cbn; [split; constructor |].
  destruct (update_exhausted e f H0) as [Hr Hc].
  fold (update e f). destruct (update e f) as [e1 calls] eqn:E. cbn in *.
  specialize (IH e1 Hr). destruct (run e1 fs) as [e2 rest]. cbn in *.
  destruct IH as [IH1 IH2]. split; constructor; auto.
Qed.

Lemma run_expired e t fs :
  expired e t -> chronological t fs -> Forall (eq []) (snd (run e fs)).
Proof.
  revert e t. induction fs as [| f fs IH]; intros e t He Hc; cbn; [constructor |].
  destruct Hc as [Ht Hc].
  destruct (update_expired e f (expired_later _ _ _ He Ht)) as [Hn He1].
  fold (update e f). destruct (update e f) as [e1 calls] eqn:E. cbn in *.
  specialize (IH e1 _ He1 Hc). destruct (run e1 fs) as [e2 rest]. cbn in *.
  constructor; auto.
Qed.

Lemma run_unlimited e fs :
  (remaining e < 0)%Z -> Forall (eq (remaining e)) (remaining_history e fs).
Proof.
  revert e. induction fs as [| f fs IH]; intros e Hn; cbn; [constructor |].
  fold (update e f). pose proof (update_unlimited e f Hn) as Hu.
  constructor; [symmetry; exact Hu |]. rewrite <- Hu. apply IH. lia.
Qed.

Lemma run_non_increasing e fs :
  nonneg_rate e -> non_increasing (remaining e :: remaining_history e fs).
Proof.
  revert e. induction fs as [| f fs IH]; intros e Hr; cbn; [auto |].
  fold (update e f). split; [exact (update_non_increasing e f Hr) |].
  apply IH, update_nonneg_rate, Hr.
Qed.

(** C1 (as the code has it): for an emitter whose emission rate never
    evaluates to a negative count, over any sequence of updates the
    counter never increases; it stays at -1 if it starts there; and once
    it is 0 after some frames [fs], it is 0 after every later frame and
    no later frame calls the zone or the particle factory. *)
Theorem C1_remaining_never_increases (e : Emitter zone_t) (fs later : list Frame) :
  nonneg_rate e ->
  non_increasing (remaining e :: remaining_history e fs)
  /\ (remaining e = (-1)%Z -> Forall (eq (-1)%Z) (remaining_history e fs))
  /\ (remaining (fst (run e fs)) = 0%Z ->
      Forall (eq 0%Z) (remaining_history (fst (run e fs)) later)
      /\ Forall (eq []) (snd (run (fst (run e fs)) later))).
Proof.
  intros Hr. split; [exact (run_non_increasing e fs Hr) |]. split.
  - intros Hu. rewrite <- Hu. apply run_unlimited. lia.
  - apply run_exhausted.
Qed.

Lemma run_cons e f fs :
  run e (f :: fs)
  = (fst (run (fst (update e f)) fs), snd (update e f) :: snd (run (fst (update e f)) fs)).
Proof.
  cbn [run]. destruct (update e f) as [e1 calls]. cbn [fst snd].
  destruct (run e1 fs) as [e2 rest]. reflexivity.
Qed.

Lemma remaining_history_length e fs : length (remaining_history e fs) = length fs.
Proof. revert e. induction fs as [| f fs IH]; intros e; cbn; [reflexivity | now rewrite IH]. Qed.

Lemma run_length e fs : length (snd (run e fs)) = length fs.
Proof.
  revert e. induction fs as [| f fs IH]; intros e; [reflexivity |].
  rewrite run_cons. cbn. now rewrite IH.
Qed.

Lemma Forall_eq_repeat {A} (x : A) (l : list A) : Forall (eq x) l -> l = repeat x (length l).
Proof. induction 1 as [| y l <- _ IH]; cbn; [reflexivity | now rewrite <- IH]. Qed.

(** A tick that fires under a zero-duration driver. *)
Lemma update_fires e f :
  Cooldown.cold (tick e) (now (f_world f)) = true ->
  Qeq_bool (Cooldown.duration (LerpThing.duration (ept e))) 0 = true ->
  (0 < remaining e)%Z ->
  let emits := Z.min (int (LerpThing.call (ept e) (now (f_world f)))) (remaining e) in
  remaining (fst (update e f)) = (remaining e - emits)%Z
  /\ spawned (snd (update e f)) = Z.to_nat emits.
Proof.
  intros Hc Hd Hr. unfold update, emitter_system, Cooldown.hot. rewrite Hc.
  cbn [negb next set_tick remaining ept].
  destruct (Z.eqb_spec (remaining e) 0) as [E | _]; [lia |].
  unfold emission_time. cbn [ept set_tick]. rewrite Hd. cbn [negb].
  assert ((remaining e >? 0)%Z = true) as -> by (apply Z.gtb_lt; exact Hr).
  destruct (lifetime (f_world f) !! f_eid f);
    match goal with
    | |- context [match spawn ?n ?t ?i ?p ?m ?z with _ => _ end] =>
        pose proof (spawn_factory_count n t i p m z) as Hn;
        destruct (spawn n t i p m z)
    end; cbn in *; auto.
Qed.

(** One firing tick of an emitter with a zero-duration driver and the
    constant heartbeat [[0.1]]. *)
Lemma heartbeat_step e f :
  Qeq_bool (Cooldown.duration (LerpThing.duration (ept e))) 0 = true ->
  ticker e = cycle_of (1#10) [] ->
  Cooldown.cold (tick e) (now (f_world f)) = true ->
  (0 < remaining e)%Z ->
  let e' := fst (update e f) in
  let emits := Z.min (int (LerpThing.vt0 (ept e))) (remaining e) in
  remaining e' = (remaining e - emits)%Z
  /\ spawned (snd (update e f)) = Z.to_nat emits
  /\ ept e' = ept e
  /\ ticker e' = cycle_of (1#10) []
  /\ tick e' = Cooldown.Make (1#10) (now (f_world f)).
Proof.
  intros Hd Hk Hc Hr. cbv zeta.
  destruct (update_fires e f Hc Hd Hr) as [H1 H2].
  destruct (update_rearm e f Hc) as [H3 H4].
  unfold LerpThing.call in H1, H2. rewrite Hd in H1, H2.
  rewrite Hk in H3, H4. cbn in H3, H4.
  repeat split; auto using update_ept.
Qed.

Lemma aligned_cold (t t' : Q) :
  t' == t + (1#10) -> Cooldown.cold (Cooldown.Make (1#10) t) t' = true.
Proof.
  intros Ht. unfold Cooldown.cold, Cooldown.temperature. cbn.
  apply Qle_bool_iff. Lqa.lra.
Qed.

(** C2: an emitter built with [ticklist = [0.1]], a constant rate of 2
    with zero duration and [total_emits = 5], whatever its zone, easing,
    inheritance flags and entity.  With the first frame at or after the
    construction and the next two frames exactly 0.1 s apart, the
    frames spawn 2, 2 and 1 particles and leave 3, 1 and 0 emits; every
    later frame spawns 0 and leaves 0. *)
Theorem C2_budget_of_five (z : zone_t) (ease : Q -> Q) (inherit : Z) (tick0 born : Q)
    (f1 f2 f3 : Frame) (later : list Frame) :
  born <= now (f_world f1) ->
  now (f_world f2) == now (f_world f1) + (1#10) ->
  now (f_world f3) == now (f_world f2) + (1#10) ->
  let e0 := post_init (LerpThing.new 2 2 0 ease born) tick0 [1#10] (Some 5%Z) z inherit born in
  let fs := f1 :: f2 :: f3 :: later in
  map spawned (snd (run e0 fs)) = [2; 2; 1]%nat ++ repeat 0%nat (length later)
  /\ remaining_history e0 fs = [3; 1; 0]%Z ++ repeat 0%Z (length later).
Proof.
  intros Hb H12 H23 e0 fs.
  assert (Cooldown.cold (tick e0) (now (f_world f1)) = true) as Hc1.
  { unfold Cooldown.cold, Cooldown.temperature. cbn. apply Qle_bool_iff. Lqa.lra. }
  destruct (heartbeat_step e0 f1 eq_refl eq_refl Hc1 ltac:(cbn; lia))
    as (R1 & S1 & P1 & K1 & T1).
  set (e1 := fst (update e0 f1)) in *.
  assert (Cooldown.cold (tick e1) (now (f_world f2)) = true) as Hc2
    by (rewrite T1; exact (aligned_cold _ _ H12)).
  cbn in R1, S1. change (int 2) with 2%Z in R1, S1. cbn in R1, S1.
  destruct (heartbeat_step e1 f2 ltac:(rewrite P1; reflexivity) K1 Hc2 ltac:(lia))
    as (R2 & S2 & P2 & K2 & T2).
  set (e2 := fst (update e1 f2)) in *.
  assert (Cooldown.cold (tick e2) (now (f_world f3)) = true) as Hc3
    by (rewrite T2; exact (aligned_cold _ _ H23)).
  rewrite P1, R1 in R2, S2. cbn in R2, S2. change (int 2) with 2%Z in R2, S2. cbn in R2, S2.
  destruct (heartbeat_step e2 f3 ltac:(rewrite P2, P1; reflexivity) K2 Hc3 ltac:(lia))
    as (R3 & S3 & _).
  set (e3 := fst (update e2 f3)) in *.
  rewrite P2, P1, R2 in R3, S3. cbn in R3, S3. change (int 2) with 2%Z in R3, S3. cbn in R3, S3.
  destruct (run_exhausted e3 later R3) as [Hh Hn].
  unfold fs. rewrite !run_cons. cbn [snd map remaining_history].
  fold e1 e2 e3. rewrite S1, S2, S3, R1, R2, R3. split.
  - cbn. do 3 f_equal.
    rewrite <- (run_length e3 later), <- (length_map spawned).
    apply Forall_eq_repeat. apply Forall_map.
    eapply Forall_impl; [exact Hn |]. intros c <-. reflexivity.
  - cbn. do 3 f_equal.
    rewrite <- (remaining_history_length e3 later). apply Forall_eq_repeat, Hh.
Qed.

(** C3: on every update that finds the tick timer cold, the timer is
    reset with the next value of the ticker and the ticker advances,
    whatever else holds.  If moreover the emitter is exhausted, or its
    positive-duration emission window is over, then this update and
    every later one (the clock not running backwards) calls neither the
    zone nor the particle factory. *)
Theorem C3_rearm_is_unconditional (e : Emitter zone_t) (f : Frame) (later : list Frame) :
  Cooldown.cold (tick e) (now (f_world f)) = true ->
  let e' := fst (update e f) in
  tick e' = Cooldown.reset (tick e) (fst (next (ticker e))) (now (f_world f))
  /\ ticker e' = snd (next (ticker e))
  /\ (remaining e = 0%Z \/ expired e (now (f_world f)) ->
      chronological (now (f_world f)) later ->
      snd (update e f) = [] /\ Forall (eq []) (snd (run e' later))).
Proof.
  intros Hc e'. destruct (update_rearm e f Hc) as [Ht Hk].
  split; [exact Ht |]. split; [exact Hk |].
  intros [H0 | He] Hl.
  - destruct (update_exhausted e f H0) as [Hr Hn]. split; [exact Hn |].
    apply run_exhausted, Hr.
  - destruct (update_expired e f He) as [Hn He']. split; [exact Hn |].
    exact (run_expired e' _ later He' Hl).
Qed.

Lemma update_zero_duration_time e f :
  Cooldown.duration (LerpThing.duration (ept e)) == 0 ->
  lifetime (f_world f) !! f_eid f = None ->
  Forall (fun c => call_t c = 0) (snd (update e f)).
Proof.
  intros Hd Hl. destruct (update_calls e f) as [-> | (t & n & z & Ht & ->)];
    [constructor |].
  unfold emission_time in Ht. apply Qeq_bool_iff in Hd. rewrite Hd, Hl in Ht.
  cbn in Ht. injection Ht as <-. apply spawn_call_t.
Qed.

(** C7: with a zero-duration emission-rate driver and an entity that
    has no lifetime component, every call to the zone and to the
    particle factory, on every frame, is made with [t = 0]. *)
Theorem C7_time_is_zero (e : Emitter zone_t) (fs : list Frame) :
  Cooldown.duration (LerpThing.duration (ept e)) == 0 ->
  Forall (fun f => eid_has_lifetime (f_world f) (f_eid f) = false) fs ->
  Forall (Forall (fun c => call_t c = 0)) (snd (run e fs)).
Proof.
  intros Hd Hl. revert e Hd. induction Hl as [| f fs Hf _ IH]; intros e Hd.
  - constructor.
  - rewrite run_cons. cbn [snd]. constructor.
    + apply eid_has_lifetime_false in Hf. exact (update_zero_duration_time e f Hd Hf).
    + apply IH. rewrite update_ept. exact Hd.
Qed.

Lemma compose_momentum_spec (w : World) (eid : nat) e (zm : Vector2) :
  veq (compose_momentum (inherit_momentum e) (entity_momentum w eid e) zm)
      (vadd (entity_contribution w eid (inherit_momentum e))
            (zone_contribution (inherit_momentum e) zm)).
Proof.
  unfold compose_momentum, entity_momentum, entity_contribution, zone_contribution.
  rewrite truthy_land_1, truthy_land_2.
  destruct (Z.testbit (inherit_momentum e) 0), (Z.testbit (inherit_momentum e) 1),
    (momentum w !! eid) as [m |]; unfold veq, vadd, vzero; cbn; split; ring.
Qed.

(** C4: an update calls the zone and then the factory once per sample,
    and the momentum it hands to the factory is, as a number, the
    entity's contribution plus the zone's contribution.  The entity's
    contribution is the zero vector when the entity has no momentum
    component or bit 0 of [inherit_momentum] is unset; the zone's is the
    zero vector when bit 1 is unset.  With [inherit_momentum = 3], an
    entity momentum of (5,0) and a zone whose samples have momentum
    (0,3), every particle gets exactly (5,3). *)
Theorem C4_momentum_inheritance (e : Emitter zone_t) (f : Frame) :
  let w := f_world f in
  let eid := f_eid f in
  let inherit := inherit_momentum e in
  (exists t n,
     snd (update e f)
     = flat_map (fun s => [ZoneEmit t;
                           ParticleFactory t (vadd (f_position f) (fst s))
                             (compose_momentum inherit (entity_momentum w eid e) (snd s))])
         (samples n t (zone e)))
  /\ (forall zm,
        veq (compose_momentum inherit (entity_momentum w eid e) zm)
            (vadd (entity_contribution w eid inherit) (zone_contribution inherit zm)))
  /\ (eid_has_momentum w eid = false \/ Z.testbit inherit 0 = false ->
      entity_contribution w eid inherit = vzero)
  /\ (Z.testbit inherit 1 = false -> forall zm, zone_contribution inherit zm = vzero)
  /\ (inherit = 3%Z -> momentum w !! eid = Some (Vec 5 0) ->
      (forall (z : zone_t) (t : Q), snd (fst (emit z t)) = Vec 0 3) ->
      forall t p m, In (ParticleFactory t p m) (snd (update e f)) -> m = Vec 5 3).
Proof.
  intros w eid inherit.
  assert (forall t p m, In (ParticleFactory t p m) (snd (update e f)) ->
            exists z : zone_t,
              m = compose_momentum inherit (entity_momentum w eid e) (snd (fst (emit z t))))
    as Hcalls.
  { intros t p m Hin.
    destruct (update_calls e f) as [Hn | (t' & n & z & _ & Hs)];
      [rewrite Hn in Hin; destruct Hin |].
    rewrite Hs in Hin.
    pose proof (spawn_momenta n t' inherit (f_position f) (entity_momentum w eid e) z) as Hm.
    pose proof (spawn_call_t n t' inherit (f_position f) (entity_momentum w eid e) z) as Ht.
    rewrite List.Forall_forall in Hm, Ht.
    specialize (Hm _ Hin). specialize (Ht _ Hin). cbn in Hm, Ht. subst t'. exact Hm. }
  split; [exact (update_calls_samples e f) |].
  split; [exact (compose_momentum_spec w eid e) |].
  repeat split.
  - unfold entity_contribution. intros [Hn | ->].
    + apply eid_has_momentum_false in Hn. rewrite Hn. reflexivity.
    + destruct (momentum w !! eid); reflexivity.
  - unfold zone_contribution. intros -> zm. reflexivity.
  - intros Hi Hm Hz t p m Hin. destruct (Hcalls t p m Hin) as [z ->].
    rewrite Hz. unfold entity_momentum. fold inherit eid w. rewrite Hi, Hm. reflexivity.
Qed.
End EmitterFacts.

(** ** The emitter on concrete frames *)

(** C1 as stated fails: with a rate of -2 emits per tick and 5 emits
    left, one update calls nothing and leaves 7. *)
Lemma C1_negative_rate_refills :
  let e := scenario_emitter (-2) (Some 5%Z) in
  let e' := fst (update e (scenario_frame 0)) in
  remaining e = 5%Z /\ remaining e' = 7%Z /\ snd (update e (scenario_frame 0)) = []
  /\ ~ (remaining e' <= remaining e)%Z.
Proof.
  cbv zeta. repeat split; try (vm_compute; reflexivity).
  vm_compute. intros Hle. apply Hle. reflexivity.
Qed.

(** A budget of five at a constant rate of 2 runs down to zero and stays
    there; an unlimited emitter stays at -1. *)
Lemma C1_witness :
  (remaining_history (scenario_emitter 2 (Some 5%Z))
     (map scenario_frame [0; 1#10; 2#10]) = [3; 1; 0]%Z
   /\ Forall (eq 0%Z)
        (remaining_history
           (fst (run (scenario_emitter 2 (Some 5%Z)) (map scenario_frame [0; 1#10; 2#10])))
           (map scenario_frame [3#10; 4#10]))
   /\ Forall (eq [])
        (snd (run (fst (run (scenario_emitter 2 (Some 5%Z))
                         (map scenario_frame [0; 1#10; 2#10])))
                  (map scenario_frame [3#10; 4#10]))))
  /\ Forall (eq (-1)%Z)
       (remaining_history (scenario_emitter 2 None) (map scenario_frame [0; 1#10; 2#10])).
Proof.
  assert (forall total, nonneg_rate (scenario_emitter 2 total)) as Hrate
    by (intros total t; vm_compute; discriminate).
  destruct (C1_remaining_never_increases (scenario_emitter 2 (Some 5%Z))
              (map scenario_frame [0; 1#10; 2#10])
              (map scenario_frame [3#10; 4#10]) (Hrate _)) as (_ & _ & Hzero).
  destruct (C1_remaining_never_increases (scenario_emitter 2 None)
              (map scenario_frame [0; 1#10; 2#10]) [] (Hrate _)) as (_ & Hunlimited & _).
  destruct (Hzero eq_refl) as [Hstay Hsilent].
  split; [split; [reflexivity | split; [exact Hstay | exact Hsilent]] |].
  exact (Hunlimited eq_refl).
Defined.

(** The scenario of C2 on the clock 0, 0.1, 0.2, 0.3, 0.4. *)
Lemma C2_witness :
  map spawned (snd (run (scenario_emitter 2 (Some 5%Z))
                        (map scenario_frame [0; 1#10; 2#10; 3#10; 4#10])))
    = [2; 2; 1; 0; 0]%nat
  /\ remaining_history (scenario_emitter 2 (Some 5%Z))
       (map scenario_frame [0; 1#10; 2#10; 3#10; 4#10])
     = [3; 1; 0; 0; 0]%Z.
Proof.
  apply (C2_budget_of_five scenario_zone (fun x => x) 3 (1#10) 0
           (scenario_frame 0) (scenario_frame (1#10)) (scenario_frame (2#10))
           (map scenario_frame [3#10; 4#10])).
  - vm_compute. discriminate.
  - reflexivity.
  - reflexivity.
Defined.

(** An exhausted emitter and one whose one-second window is over at
    instant 2: both re-arm to 0.1 s and stay silent. *)
Lemma C3_witness :
  (tick (fst (update (scenario_emitter 2 (Some 0%Z)) (scenario_frame 0)))
     = Cooldown.Make (1#10) 0
   /\ snd (update (scenario_emitter 2 (Some 0%Z)) (scenario_frame 0)) = []
   /\ Forall (eq [])
        (snd (run (fst (update (scenario_emitter 2 (Some 0%Z)) (scenario_frame 0)))
                  (map scenario_frame [1#10; 2#10]))))
  /\ (tick (fst (update (window_emitter 1) (scenario_frame 2))) = Cooldown.Make (1#10) 2
      /\ snd (update (window_emitter 1) (scenario_frame 2)) = []
      /\ Forall (eq [])
           (snd (run (fst (update (window_emitter 1) (scenario_frame 2)))
                     (map scenario_frame [21#10; 22#10])))).
Proof.
  assert (forall a b c : Q, Qle_bool a b = true -> Qle_bool b c = true ->
            chronological a (map scenario_frame [b; c])) as Hclock.
  { intros a b c Hab Hbc. cbn. rewrite <- !Qle_bool_iff. auto. }
  destruct (C3_rearm_is_unconditional (scenario_emitter 2 (Some 0%Z)) (scenario_frame 0)
              (map scenario_frame [1#10; 2#10]) eq_refl) as (Ht1 & _ & Hq1).
  destruct (C3_rearm_is_unconditional (window_emitter 1) (scenario_frame 2)
              (map scenario_frame [21#10; 22#10]) eq_refl) as (Ht2 & _ & Hq2).
  destruct (Hq1 (or_introl eq_refl) (Hclock 0 (1#10) (2#10) eq_refl eq_refl)) as [Hn1 Hl1].
  assert (expired (window_emitter 1) 2) as Hexp by (split; reflexivity).
  destruct (Hq2 (or_intror Hexp) (Hclock 2 (21#10) (22#10) eq_refl eq_refl)) as [Hn2 Hl2].
  repeat split; assumption.
Defined.

(** Two firing ticks of the scenario emitter: four calls each, all with
    [t = 0]. *)
Lemma C7_witness :
  Forall (Forall (fun c => call_t c = 0))
    (snd (run (scenario_emitter 2 (Some 5%Z)) (map scenario_frame [0; 1#10]))).
Proof.
  apply (C7_time_is_zero (scenario_emitter 2 (Some 5%Z))).
  - reflexivity.
  - repeat constructor.
Defined.

(** The scenario of C4: flags 3, entity momentum (5,0), zone momentum (0,3). *)
Lemma C4_witness :
  Forall (fun c => match c with
                   | ParticleFactory _ _ m => m = Vec 5 3
                   | ZoneEmit _ => True
                   end)
    (snd (update (scenario_emitter 2 (Some 5%Z)) (scenario_frame 0))).
Proof.
  apply List.Forall_forall. intros [t | t p m] Hin; [exact I |].
  destruct (C4_momentum_inheritance (scenario_emitter 2 (Some 5%Z)) (scenario_frame 0))
    as (_ & _ & _ & _ & Hscenario).
  exact (Hscenario eq_refl eq_refl (fun _ _ => eq_refl) t p m Hin).
Defined.

(** Half way through a one-second window from 2 to 5 emits per tick,
    a tick spawns int(3.5) = 3 particles with t = 0.5. *)
Example window_half_way :
  map call_t (snd (update (window_emitter 1) (scenario_frame (1#2))))
  = [1#2; 1#2; 1#2; 1#2; 1#2; 1#2]
  /\ spawned (snd (update (window_emitter 1) (scenario_frame (1#2)))) = 3%nat.
Proof. split; vm_compute; reflexivity. Qed.

Example scenario_first_tick :
  snd (update (scenario_emitter 2 (Some 5%Z)) (scenario_frame 0))
  = [ZoneEmit 0; ParticleFactory 0 (Vec 0 0) (Vec 5 3);
     ZoneEmit 0; ParticleFactory 0 (Vec 0 0) (Vec 5 3)].
Proof. vm_compute. reflexivity. Qed.

(** ** Construction *)

(** C5 (as the code has it): an [Emitter] built with an empty
    [ticklist] is accepted; nothing is raised, and the ticker falls back
    to the one-element cycle [[tick]], a constant heartbeat of [tick]
    seconds. *)
Theorem C5_empty_ticklist_falls_back {zone_t : Type} (ept0 : LerpThing.t) (tick0 : Q)
    (total : option Z) (z : zone_t) (inherit : Z) (now0 : Q) :
  exists e : Emitter zone_t,
    Emitter_new ept0 tick0 [] total z inherit now0 = Built e
    /\ saved (ticker e) = [tick0]
    /\ next (ticker e) = (tick0, ticker e).
Proof.
  exists (post_init ept0 tick0 [] total z inherit now0).
  repeat split.
Qed.

(** C5 as stated fails: the constructor does not reject the empty
    sequence, here with the default [tick] of 0.1. *)
Lemma C5_empty_ticklist_accepted :
  Emitter_new (LerpThing.new 2 2 0 (fun x => x) 0) (1#10) [] None scenario_zone 3 0
    <> Raised
  /\ (forall e, Emitter_new (LerpThing.new 2 2 0 (fun x => x) 0) (1#10) [] None
                  scenario_zone 3 0 = Built e ->
                fst (next (ticker e)) = 1#10).
Proof.
  split; [discriminate |].
  intros e He. injection He as <-. reflexivity.
Qed.

(** The ticker yields the saved values in order, again and again. *)
Lemma ticks_cyclic (c : cycle) (k i : nat) :
  (c_pos c < length (saved c))%nat -> (i < k)%nat ->
  nth_error (ticks k c) i
  = Some (nth (Nat.modulo (c_pos c + i) (length (saved c))) (saved c) (c_first c)).
Proof.
  revert c i. induction k as [| k IH]; intros c i Hpos Hi; [lia |].
  destruct i as [| i]; cbn [ticks nth_error next fst snd].
  - rewrite Nat.add_0_r, Nat.mod_small by exact Hpos. reflexivity.
  - rewrite IH; cbn [c_pos c_first saved c_rest].
    + change (c_first c :: c_rest c) with (saved c).
      rewrite Nat.Div0.add_mod_idemp_l.
      replace (S (c_pos c) + i)%nat with (c_pos c + S i)%nat by lia. reflexivity.
    + change (c_first c :: c_rest c) with (saved c).
      apply Nat.mod_upper_bound. cbn. lia.
    + lia.
Qed.

Example ticker_cycles :
  ticks 6 (ticker (post_init (LerpThing.new 2 2 0 (fun x => x) 0) (1#10)
                     [5#60; 5#60; 1] None scenario_zone 3 0))
  = [5#60; 5#60; 1; 5#60; 5#60; 1].
Proof. reflexivity. Qed.

(** ** Particle glue *)

Lemma particle_rsai_system_lock (t dt : Q) (eid : nat) (p : Particle) (d : RSAImage.t) :
  RSAImage.lock (particle_rsai_system t dt eid p d) = false.
Proof.
  unfold particle_rsai_system, particle_rsai_writes.
  rewrite !fold_left_app. reflexivity.
Qed.

(** The general bracket: one lock write first, one unlock write last,
    and the descriptor is locked after every write but the last. *)
Lemma particle_rsai_bracket (t : Q) (p : Particle) (d : RSAImage.t) :
  exists fields,
    particle_rsai_writes t p
      = RSAImage.SetLock true :: fields ++ [RSAImage.SetLock false]
    /\ forallb (fun a => negb (RSAImage.is_lock a)) fields = true
    /\ Forall (fun d' => RSAImage.lock d' = true)
         (observed d (RSAImage.SetLock true :: fields)).
Proof.
  exists (push_channel RSAImage.SetRotate (rotate p) t
          ++ push_channel RSAImage.SetScale (scale p) t
          ++ push_channel RSAImage.SetAlpha (alpha p) t).
  split; [unfold particle_rsai_writes; cbn; now rewrite <- !app_assoc |].
  destruct (rotate p), (scale p), (alpha p); cbn; split; repeat constructor.
Qed.

Lemma alpha_only_update (a : LerpThing.t) (t dt : Q) (eid : nat) (d : RSAImage.t) :
  particle_rsai_system t dt eid {| rotate := None; scale := None; alpha := Some a |} d
  = RSAImage.Make (RSAImage.rotate d) (RSAImage.scale d) (LerpThing.v a t) false.
Proof. reflexivity. Qed.

Lemma alpha_only_frames (a : LerpThing.t) (frames : list Q) (d : RSAImage.t) :
  let d' := particle_rsai_frames frames
              {| rotate := None; scale := None; alpha := Some a |} d in
  RSAImage.rotate d' = RSAImage.rotate d /\ RSAImage.scale d' = RSAImage.scale d.
Proof.
  revert d. induction frames as [| t ts IH]; intros d; [split; reflexivity |].
  cbn [particle_rsai_frames]. rewrite alpha_only_update.
  exact (IH (RSAImage.Make (RSAImage.rotate d) (RSAImage.scale d) (LerpThing.v a t) false)).
Qed.

(** C8: a particle with only [alpha] set, after any number of earlier
    frames, updated at instant [t]: [rotate] and [scale] of the
    descriptor are those it started with, [alpha] is the driver's value
    at [t]; the update writes lock, alpha, unlock in this order, the
    descriptor is locked after the first two writes and unlocked on
    return. *)
Theorem C8_alpha_only_particle (a : LerpThing.t) (frames : list Q) (t dt : Q)
    (eid : nat) (rsai : RSAImage.t) :
  let particle := {| rotate := None; scale := None; alpha := Some a |} in
  let before := particle_rsai_frames frames particle rsai in
  let after := particle_rsai_system t dt eid particle before in
  RSAImage.rotate after = RSAImage.rotate rsai
  /\ RSAImage.scale after = RSAImage.scale rsai
  /\ RSAImage.alpha after = LerpThing.v a t
  /\ RSAImage.lock after = false
  /\ particle_rsai_writes t particle
     = [RSAImage.SetLock true; RSAImage.SetAlpha (LerpThing.v a t); RSAImage.SetLock false]
  /\ map RSAImage.lock (observed before (particle_rsai_writes t particle))
     = [true; true; false]
  /\ List.last (observed before (particle_rsai_writes t particle)) before = after.
Proof.
  cbv zeta. destruct (alpha_only_frames a frames rsai) as [Hr Hs].
  rewrite alpha_only_update. cbn. repeat split; auto.
Qed.

(** ** The container *)

(** The horizontal edges of a container anchored at the origin: the
    momentum is inverted on the x axis and the position is reflected by
    twice the penetration depth. *)
Lemma container_left_edge (dt : Q) (eid : nat) (container : Rect)
    (position momentum0 : Vector2) (sprite : ESprite) :
  left container = 0%Z ->
  (left (rect sprite) < left container)%Z ->
  vx momentum0 < 0 ->
  let '(position', momentum') := container_system dt eid container position momentum0 sprite in
  vx momentum' = - vx momentum0
  /\ vx position' = vx position + inject_Z (2 * (left container - left (rect sprite))).
Proof.
  intros H0 Hl Hm. unfold container_system.
  apply Z.ltb_lt in Hl. apply Qlt_bool_iff in Hm. rewrite Hl, Hm. cbn [andb].
  rewrite H0.
  replace (2 * (0 - left (rect sprite)))%Z with (-2 * left (rect sprite))%Z by lia.
  repeat match goal with |- context [if ?b then _ else _] => destruct b end;
    cbn; split; reflexivity.
Qed.

(** The bottom edge of a container anchored at the origin, for a sprite
    that has not crossed the top edge: the vertical momentum is
    inverted and the position is reflected by twice the penetration
    depth. *)
Lemma container_bottom_edge (dt : Q) (eid : nat) (container : Rect)
    (position momentum0 : Vector2) (sprite : ESprite) :
  top container = 0%Z ->
  (top container <= top (rect sprite))%Z ->
  (bottom (rect sprite) > bottom container)%Z ->
  0 < vy momentum0 ->
  let '(position', momentum') := container_system dt eid container position momentum0 sprite in
  vy momentum' = - vy momentum0
  /\ vy position' = vy position + inject_Z (2 * (bottom container - bottom (rect sprite))).
Proof.
  intros H0 Ht Hb Hm. unfold container_system. cbv zeta.
  assert (bottom container = height container) as Hbc by (unfold bottom; lia).
  rewrite Hbc in Hb |- *.
  assert ((top (rect sprite) <? top container)%Z = false) as Ht' by (apply Z.ltb_ge; exact Ht).
  assert ((bottom (rect sprite) >? height container)%Z = true) as Hb' by (apply Z.gtb_lt; lia).
  apply Qlt_bool_iff in Hm.
  destruct ((left (rect sprite) <? left container)%Z && Qlt_bool (vx momentum0) 0);
    [| destruct ((right (rect sprite) >? right container)%Z && Qlt_bool 0 (vx momentum0))];
    cbn [vx vy]; rewrite Ht', Hb', Hm; cbn [andb vx vy]; split; reflexivity.
Qed.

(** C9 fails on the vertical axis: the top-edge test reads the
    horizontal momentum.  A sprite that has crossed the top edge while
    moving up and to the right is left alone; one that has crossed it
    while already moving down and to the left has its vertical momentum
    turned back toward the edge. *)
Theorem C9_top_edge_reads_horizontal_momentum :
  let container := {| left := 0; top := 0; width := 100; height := 100 |} in
  let sprite := {| rect := {| left := 10; top := -5; width := 20; height := 20 |} |} in
  container_system (1#60) 0 container (Vec 20 5) (Vec 1 (-3)) sprite
    = (Vec 20 5, Vec 1 (-3))
  /\ container_system (1#60) 0 container (Vec 20 5) (Vec (-1) 3) sprite
    = (Vec 20 15, Vec (-1) (-3)).
Proof. split; reflexivity. Qed.

(** The reflection measures the depth from the origin, not from the
    container: with the container at x = 50, a sprite 5 units past the
    left edge is moved by -90 instead of +10. *)
Example container_off_origin :
  container_system (1#60) 0 {| left := 50; top := 0; width := 100; height := 100 |}
    (Vec 55 50) (Vec (-1) 0)
    {| rect := {| left := 45; top := 40; width := 20; height := 20 |} |}
  = (Vec (-35) 50, Vec 1 0).
Proof. reflexivity. Qed.

(** ** ZoneRect *)

Lemma int_truncates (x : Q) : truncates x (int x).
Proof. split; [apply int_trunc_nonneg | apply int_trunc_nonpos]. Qed.

Lemma int_sign_nonpos (q : Q) : q <= 0 -> (int q <= 0)%Z.
Proof.
  intros Hq. destruct (int_trunc_nonpos q Hq) as [Ha _].
  assert (inject_Z (int q) < inject_Z 1) as Hlt by (change (inject_Z 1) with 1; Lqa.lra).
  rewrite <- Zlt_Qlt in Hlt. lia.
Qed.

Lemma centred_bound (w p : Q) :
  0 <= w -> 0 <= p -> p < 1 ->
  - (w / 2) <= w * (p - (1#2)) /\ w * (p - (1#2)) <= w / 2.
Proof.
  intros Hw H0 H1.
  assert (0 <= w * p) as Ha by (apply Qmult_le_0_compat; assumption).
  assert (0 <= w * (1 - p)) as Hb by (apply Qmult_le_0_compat; Lqa.lra).
  assert (w * (1 - p) == w - w * p) as E1 by ring.
  assert (w * (p - (1#2)) == w * p - w / 2) as E2 by field.
  rewrite E1 in Hb. rewrite E2.
  revert Ha Hb. generalize (w * p). intros wp Ha Hb. split; Lqa.lra.
Qed.

Lemma centred_sample_bound (W : Z) (p : Q) :
  (0 <= W)%Z -> 0 <= p -> p < 1 ->
  let x := inject_Z W * (p - (1#2)) in
  - (inject_Z W / 2) <= inject_Z (int x) /\ inject_Z (int x) <= inject_Z W / 2.
Proof.
  intros HW H0 H1 x.
  assert (0 <= inject_Z W) as HW' by (change 0 with (inject_Z 0); rewrite <- Zle_Qle; exact HW).
  assert (- (inject_Z W / 2) <= x /\ x <= inject_Z W / 2) as [Hlo Hhi].
  { exact (centred_bound _ _ HW' H0 H1). }
  destruct (Qlt_le_dec x 0) as [Hneg | Hpos].
  - destruct (int_trunc_nonpos x ltac:(Lqa.lra)) as [_ Hb].
    pose proof (int_sign_nonpos x ltac:(Lqa.lra)) as Hi.
    rewrite Zle_Qle in Hi. change (inject_Z 0) with 0 in Hi. split; Lqa.lra.
  - destruct (int_trunc_nonneg x Hpos) as [Ha _].
    pose proof (int_sign_nonneg x Hpos) as Hi.
    rewrite Zle_Qle in Hi. change (inject_Z 0) with 0 in Hi. split; Lqa.lra.
Qed.

Lemma inject_Z_not_fraction (n : Z) (q : Q) :
  (forall k : Z, ~ q == inject_Z k) -> ~ inject_Z n == q.
Proof. intros Hq Hn. apply (Hq n). symmetry. exact Hn. Qed.

(** C10: with position draws in [0,1), [ZoneRect.emit] returns a
    position whose coordinates are integers, namely the samples
    W*(r-0.5) and H*(r-0.5) truncated toward zero; they lie within
    [-W/2, W/2] and [-H/2, H/2], and no point of the extent with a
    fractional coordinate is ever returned. *)
Theorem C10_rect_positions_are_integers (z : ZoneRect.t) (t : Q) :
  (0 <= width (ZoneRect.r z))%Z ->
  (0 <= height (ZoneRect.r z))%Z ->
  (forall n, 0 <= draws (ZoneRect.rnd_p z) n /\ draws (ZoneRect.rnd_p z) n < 1) ->
  let W := inject_Z (width (ZoneRect.r z)) in
  let H := inject_Z (height (ZoneRect.r z)) in
  let r1 := draws (ZoneRect.rnd_p z) (drawn (ZoneRect.rnd_p z)) in
  let r2 := draws (ZoneRect.rnd_p z) (S (drawn (ZoneRect.rnd_p z))) in
  let position := fst (fst (ZoneRect.emit z t)) in
  exists ix iy : Z,
    position = Vec (inject_Z ix) (inject_Z iy)
    /\ truncates (W * (r1 - (1#2))) ix
    /\ truncates (H * (r2 - (1#2))) iy
    /\ (- (W / 2) <= vx position /\ vx position <= W / 2)
    /\ (- (H / 2) <= vy position /\ vy position <= H / 2)
    /\ (forall q : Q, (forall k : Z, ~ q == inject_Z k) ->
          ~ vx position == q /\ ~ vy position == q).
Proof.
  intros HW HH Hp W H r1 r2 position.
  exists (int (W * (r1 - (1#2)))), (int (H * (r2 - (1#2)))).
  assert (position = Vec (inject_Z (int (W * (r1 - (1#2)))))
                         (inject_Z (int (H * (r2 - (1#2)))))) as -> by reflexivity.
  cbn [vx vy]. destruct (Hp (drawn (ZoneRect.rnd_p z))) as [Ha Hb].
  destruct (Hp (S (drawn (ZoneRect.rnd_p z)))) as [Hc Hd].
  split; [reflexivity |]. split; [apply int_truncates |]. split; [apply int_truncates |].
  split; [exact (centred_sample_bound _ _ HW Ha Hb) |].
  split; [exact (centred_sample_bound _ _ HH Hc Hd) |].
  intros q Hq. split; apply inject_Z_not_fraction; exact Hq.
Qed.

(** 3 * 0.4 = 1.2 is stored as 1, and 5 * -0.3 = -1.5 as -1. *)
Example rect_sample_truncated :
  fst (ZoneRect.emit rect_demo 0) = (Vec 1 (-1), Vec 0 (-3)).
Proof. vm_compute. reflexivity. Qed.

(** The 3 by 5 rectangle with the draws 0.9 and 0.2. *)
Lemma C10_witness :
  exists ix iy : Z,
    fst (fst (ZoneRect.emit rect_demo 0)) = Vec (inject_Z ix) (inject_Z iy)
    /\ truncates (3 * ((9#10) - (1#2))) ix
    /\ truncates (5 * ((2#10) - (1#2))) iy
    /\ (- (3 / 2) <= vx (fst (fst (ZoneRect.emit rect_demo 0)))
        /\ vx (fst (fst (ZoneRect.emit rect_demo 0))) <= 3 / 2)
    /\ (- (5 / 2) <= vy (fst (fst (ZoneRect.emit rect_demo 0)))
        /\ vy (fst (fst (ZoneRect.emit rect_demo 0))) <= 5 / 2)
    /\ (forall q : Q, (forall k : Z, ~ q == inject_Z k) ->
          ~ vx (fst (fst (ZoneRect.emit rect_demo 0))) == q
          /\ ~ vy (fst (fst (ZoneRect.emit rect_demo 0))) == q).
Proof.
  apply (C10_rect_positions_are_integers rect_demo 0).
  - vm_compute. discriminate.
  - vm_compute. discriminate.
  - intros [| n]; split; vm_compute; (discriminate || reflexivity).
Defined.

(** ** ZoneBeam *)

Section ZoneBeamFacts.
Import ZoneBeam.
Local Open Scope R_scope.

Lemma dot_self_nonneg (a : RVector2) : 0 <= dot a a.
Proof. unfold dot. Lra.nra. Qed.

Lemma magnitude_rscale (a : RVector2) (k : R) :
  magnitude (rscale a k) = Rabs k * magnitude a.
Proof.
  unfold magnitude.
  replace (dot (rscale a k) (rscale a k)) with (k² * dot a a)
    by (unfold dot, rscale, Rsqr; cbn; ring).
  rewrite sqrt_mult by (auto using Rle_0_sqr, dot_self_nonneg).
  rewrite sqrt_Rsqr_abs. reflexivity.
Qed.

Lemma magnitude_normalize (a n : RVector2) : normalize a = Some n -> magnitude n = 1.
Proof.
  unfold normalize. destruct (Req_dec_T (magnitude a) 0) as [| Hne]; [discriminate |].
  intros [= <-]. unfold magnitude at 1.
  replace (dot _ _) with (dot a a / (magnitude a * magnitude a))
    by (unfold dot; cbn; field; exact Hne).
  unfold magnitude. rewrite sqrt_sqrt by apply dot_self_nonneg.
  unfold Rdiv. rewrite Rinv_r; [apply sqrt_1 |].
  intros E. apply Hne. unfold magnitude. rewrite E. apply sqrt_0.
Qed.

Lemma beam_position (z : t) :
  fst (sample z)
  = radd (rscale (v z) (draws (rnd_p z) (drawn (rnd_p z)))) (snd (sample z)).
Proof. reflexivity. Qed.

Lemma beam_momentum_bound (v0 : RVector2) (width0 : R) (p m : Rnd R) (z : t) :
  new v0 width0 p m = Some z ->
  0 <= width0 ->
  0 <= draws m (drawn m) < 1 ->
  magnitude (snd (sample z)) <= width0 / 2.
Proof.
  unfold new. destruct (normalize _) as [n |] eqn:En; [| discriminate].
  intros [= <-] Hw Hm. cbn.
  rewrite !magnitude_rscale, (magnitude_normalize _ _ En).
  rewrite (Rabs_right width0) by Lra.lra.
  assert (Rabs (draws m (drawn m) - 1 / 2) <= 1 / 2) by (apply Rabs_le; Lra.lra).
  Lra.nra.
Qed.

(** How far the momentum is from perpendicular. *)
Lemma beam_momentum_dot (v0 : RVector2) (width0 : R) (p m : Rnd R) (z : t) :
  new v0 width0 p m = Some z ->
  dot (snd (sample z)) v0
  = 2 * rx v0 * ry v0 / magnitude v0 * width0 * (draws m (drawn m) - 1 / 2).
Proof.
  unfold new, normalize.
  assert (magnitude (RVec (ry v0) (rx v0)) = magnitude v0) as ->
    by (unfold magnitude, dot; cbn; f_equal; ring).
  destruct (Req_dec_T (magnitude v0) 0) as [| Hne]; [discriminate |].
  intros [= <-]. unfold dot. cbn. field. exact Hne.
Qed.

Lemma magnitude_4_3 : magnitude (RVec 4 3) = 5.
Proof.
  unfold magnitude, dot. cbn. replace (4 * 4 + 3 * 3) with (5 * 5) by ring.
  apply sqrt_square. Lra.lra.
Qed.

(** C6 fails on the code: the constructor builds [w] from
    [Vector2(v.y, v.x)], the mirror image of [v], not a perpendicular.
    For the beam v = (3,4) of width 10 with [rnd_m] returning 0, the
    momentum of the sample is (-4,-3); its dot product with [v] is -24. *)
Theorem C6_beam_momentum_is_not_perpendicular :
  exists z : t,
    new (RVec 3 4) 10 (const_rnd (1/2)) (const_rnd 0) = Some z
    /\ snd (sample z) = RVec (-4) (-3)
    /\ dot (snd (sample z)) (RVec 3 4) = -24
    /\ dot (snd (sample z)) (v z) <> 0.
Proof.
  unfold new, normalize. cbn [rx ry]. rewrite magnitude_4_3.
  destruct (Req_dec_T 5 0) as [E | _]; [Lra.lra |].
  eexists. split; [reflexivity |].
  assert (snd (sample (Make (RVec 3 4) (rscale (RVec (4 / 5) (3 / 5)) 10)
                         (const_rnd (1/2)) (const_rnd 0))) = RVec (-4) (-3)) as ->
    by (cbv [sample emit draw rscale const_rnd rnd_p rnd_m draws drawn v w rx ry fst snd];
        f_equal; field).
  unfold dot. cbn. repeat split; Lra.lra.
Qed.
End ZoneBeamFacts.


(** * Further properties *)

(** ** One update of the emitter, case by case *)

Section EmitterRunFacts.
Context {zone_t : Type} `{Zone zone_t}.
Implicit Types (e : Emitter zone_t) (f : Frame) (w : World).

(** What an update does: nothing but, at most, a re-arm; or one loop of
    [emits_of] iterations over the emitter's zone. *)
Lemma update_effect e f :
  (snd (update e f) = [] /\ remaining (fst (update e f)) = remaining e
   /\ (Cooldown.hot (tick e) (now (f_world f)) = true \/ remaining e = 0%Z
       \/ emission_time (f_world f) (f_eid f) e = None))
  \/ (Cooldown.cold (tick e) (now (f_world f)) = true /\ remaining e <> 0%Z
      /\ (exists t, emission_time (f_world f) (f_eid f) e = Some t
            /\ snd (update e f)
               = snd (spawn (Z.to_nat (emits_of e (now (f_world f)))) t (inherit_momentum e)
                        (f_position f) (entity_momentum (f_world f) (f_eid f) e) (zone e)))
      /\ remaining (fst (update e f))
         = (if (remaining e >? 0)%Z then remaining e - emits_of e (now (f_world f))
            else remaining e)%Z).
Proof.
  unfold update, emitter_system, Cooldown.hot. cbn [next].
  destruct (Cooldown.cold (tick e) (now (f_world f))) eqn:Hc; cbn [negb].
  2: { left. cbn. auto. }
  cbn [set_tick remaining].
  destruct (Z.eqb_spec (remaining e) 0) as [H0 | H0].
  { left. cbn. auto. }
  match goal with
  | |- context [emission_time ?w ?i ?e1] =>
      change (emission_time w i e1) with (emission_time w i e)
  end.
  destruct (emission_time (f_world f) (f_eid f) e) as [t |] eqn:Ht.
  2: { left. cbn. auto. }
  right. split; [reflexivity |]. split; [exact H0 |].
  unfold emits_of. cbn [ept].
  destruct (remaining e >? 0)%Z;
    match goal with
    | |- context [match spawn ?n ?t ?i ?p ?m ?z with _ => _ end] =>
        destruct (spawn n t i p m z) as [z' calls] eqn:Hs
    end; cbn [fst snd set_zone set_remaining remaining];
    (split; [exists t; split; [reflexivity | exact (eq_sym (f_equal snd Hs))] | reflexivity]).
Qed.

(** The zone after an update is the zone after its loop. *)
Lemma update_zone e f :
  exists n t,
    update e f
    = (fst (update e f), snd (spawn n t (inherit_momentum e) (f_position f)
                                (entity_momentum (f_world f) (f_eid f) e) (zone e)))
    /\ zone (fst (update e f))
       = fst (spawn n t (inherit_momentum e) (f_position f)
                (entity_momentum (f_world f) (f_eid f) e) (zone e)).
Proof.
  emitter_cases; try (exists 0%nat, 0; split; reflexivity).
  all: match goal with
       | Hs : spawn ?n ?t _ _ _ _ = _ |- _ =>
           exists n, t; split;
           [ f_equal; symmetry; exact (f_equal snd Hs) | symmetry; exact (f_equal fst Hs) ]
       end.
Qed.

Lemma paired_spawn n t i p m (z : zone_t) : paired t (snd (spawn n t i p m z)).
Proof.
  revert z. induction n as [| n IH]; intros z; cbn [spawn]; [exact I |].
  destruct (emit z t) as [[zp zm] z1]. specialize (IH z1).
  destruct (spawn n t i p m z1) as [z2 calls]. cbn in *. auto.
Qed.

Lemma paired_length t (calls : list Call) :
  paired t calls ->
  length calls = (2 * spawned calls)%nat /\ Forall (fun c => call_t c = t) calls.
Proof.
  revert calls. fix IH 1. intros [| [t1 | t1 p1 m1] [| [t2 | t2 p2 m2] rest]]; cbn;
    try (intros []; fail); [split; [reflexivity | constructor] |].
  intros (-> & -> & Hrest). destruct (IH rest Hrest) as [Hl Hf].
  unfold spawned in *. cbn. split; [lia | repeat constructor; assumption].
Qed.

(** X1: after an update that found the tick timer cold, every update
    before the new interval has run out changes nothing and calls
    nothing: one heartbeat per interval. *)
Theorem X1_one_heartbeat_per_interval (e : Emitter zone_t) (f0 f1 : Frame) :
  Cooldown.cold (tick e) (now (f_world f0)) = true ->
  now (f_world f1) < now (f_world f0) + fst (next (ticker e)) ->
  update (fst (update e f0)) f1 = (fst (update e f0), []).
Proof.
  intros Hc Hlt. apply update_hot. destruct (update_rearm e f0 Hc) as [-> _].
  unfold Cooldown.hot, Cooldown.cold, Cooldown.temperature, Cooldown.reset.
  cbn [Cooldown.duration Cooldown.t0].
  apply negb_true_iff.
  destruct (Qle_bool _ 0) eqn:E; [| reflexivity].
  apply Qle_bool_iff in E. exfalso. revert E Hlt. generalize (fst (next (ticker e))).
  intros d E Hlt. Lqa.lra.
Qed.

(** X2: a tick that fires (timer cold, budget not exhausted, emission
    window open) spawns exactly [emits_of] particles, that is
    [int(ept())] clamped by a positive budget, in zone/factory pairs
    that all carry the tick's [t], and takes them off a positive
    budget. *)
Theorem X2_firing_tick (e : Emitter zone_t) (f : Frame) (t : Q) :
  Cooldown.cold (tick e) (now (f_world f)) = true ->
  remaining e <> 0%Z ->
  emission_time (f_world f) (f_eid f) e = Some t ->
  spawned (snd (update e f)) = Z.to_nat (emits_of e (now (f_world f)))
  /\ paired t (snd (update e f))
  /\ remaining (fst (update e f))
     = (if (remaining e >? 0)%Z then remaining e - emits_of e (now (f_world f))
        else remaining e)%Z.
Proof.
  intros Hc H0 Ht.
  destruct (update_effect e f) as [(_ & _ & [Hh | [Hz | Hn]]) | (_ & _ & (t' & Ht' & Hs) & Hr)].
  - unfold Cooldown.hot in Hh. rewrite Hc in Hh. discriminate Hh.
  - contradiction.
  - rewrite Ht in Hn. discriminate Hn.
  - rewrite Ht in Ht'. injection Ht' as <-. rewrite Hs.
    split; [apply spawn_factory_count |]. split; [apply paired_spawn | exact Hr].
Qed.

(** X3: whatever the state, the calls of one update come in pairs, the
    zone first and the factory second, all with one and the same [t];
    so there are as many zone calls as factory calls. *)
Theorem X3_calls_come_in_pairs (e : Emitter zone_t) (f : Frame) :
  exists t : Q,
    paired t (snd (update e f))
    /\ length (snd (update e f)) = (2 * spawned (snd (update e f)))%nat
    /\ Forall (fun c => call_t c = t) (snd (update e f)).
Proof.
  destruct (update_effect e f) as [(Hn & _) | (_ & _ & (t & _ & Hs) & _)].
  - exists 0. rewrite Hn. repeat split; constructor.
  - exists t. rewrite Hs.
    pose proof (paired_spawn (Z.to_nat (emits_of e (now (f_world f)))) t (inherit_momentum e)
                  (f_position f) (entity_momentum (f_world f) (f_eid f) e) (zone e)) as Hp.
    split; [exact Hp | exact (paired_length _ _ Hp)].
Qed.

Lemma update_budget e f :
  nonneg_rate e -> (0 <= remaining e)%Z ->
  (Z.of_nat (spawned (snd (update e f))) + remaining (fst (update e f)) = remaining e)%Z
  /\ (0 <= remaining (fst (update e f)))%Z.
Proof.
  intros Hrate Hpos.
  destruct (update_effect e f) as [(Hn & Hr & _) | (_ & H0 & (t & _ & Hs) & Hr)].
  - rewrite Hn, Hr. cbn. lia.
  - rewrite Hs, spawn_factory_count, Hr. unfold emits_of.
    assert ((remaining e >? 0)%Z = true) as -> by (apply Z.gtb_lt; lia).
    specialize (Hrate (now (f_world f))). lia.
Qed.

(** X4: with a rate that is never negative and a budget
    [total_emits >= 0], over any run the particles spawned so far plus
    the emits left equal the budget: an emitter never spawns more than
    [total_emits] particles. *)
Theorem X4_budget_is_never_exceeded (e : Emitter zone_t) (fs : list Frame) :
  nonneg_rate e -> (0 <= remaining e)%Z ->
  (Z.of_nat (total_spawned (snd (run e fs))) + remaining (fst (run e fs)) = remaining e)%Z
  /\ (0 <= remaining (fst (run e fs)))%Z
  /\ (Z.of_nat (total_spawned (snd (run e fs))) <= remaining e)%Z.
Proof.
  intros Hrate Hpos.
  assert ((Z.of_nat (total_spawned (snd (run e fs))) + remaining (fst (run e fs))
           = remaining e)%Z /\ (0 <= remaining (fst (run e fs)))%Z) as [H1 H2]; [| lia].
  revert e Hrate Hpos. induction fs as [| f fs IH]; intros e Hrate Hpos.
  - cbn. lia.
  - rewrite run_cons. cbn [fst snd total_spawned fold_right].
    destruct (update_budget e f Hrate Hpos) as [Hb Hp].
    destruct (IH (fst (update e f)) (update_nonneg_rate e f Hrate) Hp) as [IH1 IH2].
    fold (total_spawned (snd (run (fst (update e f)) fs))). lia.
Qed.

(** X5: when the rate truncates to zero or less, as every rate below
    one emit per tick does, the update calls neither the zone nor the
    factory; fractions of an emit are not carried over. *)
Theorem X5_rate_below_one_emits_nothing (e : Emitter zone_t) (f : Frame) :
  (int (LerpThing.call (ept e) (now (f_world f))) <= 0)%Z ->
  snd (update e f) = [].
Proof.
  intros Hrate.
  destruct (update_effect e f) as [(Hn & _) | (_ & _ & (t & _ & Hs) & _)]; [exact Hn |].
  rewrite Hs. assert (emits_of e (now (f_world f)) <= 0)%Z as Hle
    by (unfold emits_of; destruct (remaining e >? 0)%Z; lia).
  replace (Z.to_nat (emits_of e (now (f_world f)))) with 0%nat by lia. reflexivity.
Qed.

Lemma tick_history_cold e fs :
  all_cold e fs ->
  map Cooldown.duration (tick_history e fs) = ticks (length fs) (ticker e)
  /\ map Cooldown.t0 (tick_history e fs) = map (fun f => now (f_world f)) fs.
Proof.
  revert e. induction fs as [| f fs IH]; intros e Hall; [split; reflexivity |].
  destruct Hall as [Hc Hall]. destruct (update_rearm e f Hc) as [Ht Hk].
  destruct (IH _ Hall) as [IH1 IH2].
  cbn [tick_history map length ticks]. rewrite Ht, IH1, IH2, Hk. split; reflexivity.
Qed.

(** X6: for an emitter built with a non-empty [ticklist], over a run in
    which every frame finds the timer cold, the i-th re-arm sets the
    timer to [ticklist[i mod len(ticklist)]], started at the instant of
    the i-th frame: the list cycles. *)
Theorem X6_heartbeat_follows_ticklist (ept0 : LerpThing.t) (tick0 x : Q) (xs : list Q)
    (total : option Z) (z : zone_t) (inherit : Z) (now0 : Q) (fs : list Frame) (i : nat) :
  all_cold (post_init ept0 tick0 (x :: xs) total z inherit now0) fs ->
  (i < length fs)%nat ->
  nth_error (map Cooldown.duration
               (tick_history (post_init ept0 tick0 (x :: xs) total z inherit now0) fs)) i
  = Some (nth (Nat.modulo i (length (x :: xs))) (x :: xs) x)
  /\ nth_error (map Cooldown.t0
                  (tick_history (post_init ept0 tick0 (x :: xs) total z inherit now0) fs)) i
     = nth_error (map (fun f => now (f_world f)) fs) i.
Proof.
  intros Hall Hi. destruct (tick_history_cold _ fs Hall) as [Hd Ht].
  rewrite Hd, Ht. split; [| reflexivity].
  rewrite (ticks_cyclic _ (length fs) i); [reflexivity | cbn; lia | exact Hi].
Qed.

(** X7: an emitter starts with its tick timer cold whatever [tick] is:
    the first update at or after the construction re-arms the timer,
    with the first value of [ticklist], or with [tick] when the list is
    empty. *)
Theorem X7_new_emitter_fires_at_once (ept0 : LerpThing.t) (tick0 : Q) (ticklist : list Q)
    (total : option Z) (z : zone_t) (inherit : Z) (now0 : Q) (f : Frame) :
  now0 <= now (f_world f) ->
  let e0 := post_init ept0 tick0 ticklist total z inherit now0 in
  Cooldown.cold (tick e0) (now (f_world f)) = true
  /\ tick (fst (update e0 f))
     = Cooldown.Make (match ticklist with x :: _ => x | [] => tick0 end) (now (f_world f)).
Proof.
  intros Hnow e0.
  assert (Cooldown.cold (tick e0) (now (f_world f)) = true) as Hc.
  { unfold Cooldown.cold, Cooldown.temperature. cbn. apply Qle_bool_iff. Lqa.lra. }
  split; [exact Hc |]. destruct (update_rearm e0 f Hc) as [Ht _]. rewrite Ht.
  destruct ticklist; reflexivity.
Qed.

End EmitterRunFacts.

(** The scenario emitter at instant 0, then at 0.05, before its 0.1 s
    are over. *)
Lemma X1_witness :
  update (fst (update (scenario_emitter 2 (Some 5%Z)) (scenario_frame 0)))
         (scenario_frame (1#20))
  = (fst (update (scenario_emitter 2 (Some 5%Z)) (scenario_frame 0)), []).
Proof.
  apply (X1_one_heartbeat_per_interval (scenario_emitter 2 (Some 5%Z))
           (scenario_frame 0) (scenario_frame (1#20))).
  - reflexivity.
  - reflexivity.
Defined.

(** A budget of 1 at a rate of 2 spawns 1 and is exhausted; half way
    through its window the unlimited emitter spawns int(3.5) = 3. *)
Lemma X2_witness :
  (spawned (snd (update (scenario_emitter 2 (Some 1%Z)) (scenario_frame 0))) = 1%nat
   /\ remaining (fst (update (scenario_emitter 2 (Some 1%Z)) (scenario_frame 0))) = 0%Z)
  /\ (spawned (snd (update (window_emitter 1) (scenario_frame (1#2)))) = 3%nat
      /\ paired (1#2) (snd (update (window_emitter 1) (scenario_frame (1#2))))
      /\ remaining (fst (update (window_emitter 1) (scenario_frame (1#2)))) = (-1)%Z).
Proof.
  destruct (X2_firing_tick (scenario_emitter 2 (Some 1%Z)) (scenario_frame 0) 0
              eq_refl ltac:(discriminate) eq_refl) as (S1 & _ & R1).
  destruct (X2_firing_tick (window_emitter 1) (scenario_frame (1#2)) (1#2)
              eq_refl ltac:(discriminate) eq_refl) as (S2 & P2 & R2).
  split; [split; [exact S1 | exact R1] | split; [exact S2 | split; [exact P2 | exact R2]]].
Defined.

(** Five frames of the scenario emitter: 5 particles in all, none left. *)
Lemma X4_witness :
  (Z.of_nat (total_spawned (snd (run (scenario_emitter 2 (Some 5%Z)) scenario_clock)))
   + remaining (fst (run (scenario_emitter 2 (Some 5%Z)) scenario_clock)) = 5)%Z
  /\ (0 <= remaining (fst (run (scenario_emitter 2 (Some 5%Z)) scenario_clock)))%Z
  /\ (Z.of_nat (total_spawned (snd (run (scenario_emitter 2 (Some 5%Z)) scenario_clock)))
      <= 5)%Z.
Proof.
  apply (X4_budget_is_never_exceeded (scenario_emitter 2 (Some 5%Z)) scenario_clock).
  - intros t. vm_compute. discriminate.
  - vm_compute. discriminate.
Defined.

(** A rate of 0.9 emits per tick. *)
Lemma X5_witness :
  snd (update (scenario_emitter (9#10) (Some 5%Z)) (scenario_frame 0)) = [].
Proof.
  apply (X5_rate_below_one_emits_nothing (scenario_emitter (9#10) (Some 5%Z))
           (scenario_frame 0)).
  vm_compute. discriminate.
Defined.

(** [ticklist = [0.1, 0.2]] on the clock 0, 0.1, 0.3, 0.4: the third
    re-arm uses 0.1 again. *)
Lemma X6_witness :
  nth_error (map Cooldown.duration
               (tick_history stacking_emitter (map scenario_frame [0; 1#10; 3#10; 4#10]))) 2
  = Some (1#10)
  /\ nth_error (map Cooldown.t0
                  (tick_history stacking_emitter (map scenario_frame [0; 1#10; 3#10; 4#10]))) 2
     = Some (3#10).
Proof.
  apply (X6_heartbeat_follows_ticklist (LerpThing.new 2 2 0 (fun x => x) 0) (1#10) (1#10)
           [2#10] None scenario_zone 3 0 (map scenario_frame [0; 1#10; 3#10; 4#10]) 2).
  - repeat split.
  - vm_compute. lia.
Defined.

(** An emitter with [tick = 7] and an empty [ticklist], first updated
    at instant 3. *)
Lemma X7_witness :
  Cooldown.cold (tick (post_init (LerpThing.new 2 2 0 (fun x => x) 0) 7 [] None
                         scenario_zone 3 0)) 3 = true
  /\ tick (fst (update (post_init (LerpThing.new 2 2 0 (fun x => x) 0) 7 [] None
                          scenario_zone 3 0) (scenario_frame 3)))
     = Cooldown.Make 7 3.
Proof.
  apply (X7_new_emitter_fires_at_once (LerpThing.new 2 2 0 (fun x => x) 0) 7 [] None
           scenario_zone 3 0 (scenario_frame 3)).
  vm_compute. discriminate.
Defined.

(** ** The container, edge by edge *)

(** X8: the container never changes a sprite's speed: each component
    of the momentum comes back as it was or negated. *)
Theorem X8_container_keeps_speed (dt : Q) (eid : nat) (container : Rect)
    (position momentum0 : Vector2) (sprite : ESprite) :
  let momentum' := snd (container_system dt eid container position momentum0 sprite) in
  (vx momentum' = vx momentum0 \/ vx momentum' = - vx momentum0)
  /\ (vy momentum' = vy momentum0 \/ vy momentum' = - vy momentum0)
  /\ Qabs (vx momentum') == Qabs (vx momentum0)
  /\ Qabs (vy momentum') == Qabs (vy momentum0).
Proof.
  cbv zeta.
  assert (let m := snd (container_system dt eid container position momentum0 sprite) in
          (vx m = vx momentum0 \/ vx m = - vx momentum0)
          /\ (vy m = vy momentum0 \/ vy m = - vy momentum0)) as [Hx Hy].
  { unfold container_system. cbv zeta.
    repeat match goal with
           | |- context [if ?b && ?c then _ else _] => destruct (b && c)
           end; cbn; auto. }
  repeat split; try assumption.
  - destruct Hx as [-> | ->]; [reflexivity | apply Qabs_opp].
  - destruct Hy as [-> | ->]; [reflexivity | apply Qabs_opp].
Qed.

(** X9: a sprite whose rectangle lies within the container is left
    alone, whatever its momentum: position and momentum come back
    unchanged. *)
Theorem X9_container_leaves_inner_sprites_alone (dt : Q) (eid : nat) (container : Rect)
    (position momentum0 : Vector2) (sprite : ESprite) :
  (left container <= left (rect sprite))%Z ->
  (right (rect sprite) <= right container)%Z ->
  (top container <= top (rect sprite))%Z ->
  (bottom (rect sprite) <= bottom container)%Z ->
  container_system dt eid container position momentum0 sprite = (position, momentum0).
Proof.
  intros Hl Hr Ht Hb. unfold container_system. cbv zeta.
  assert ((left (rect sprite) <? left container)%Z = false) as -> by (apply Z.ltb_ge; lia).
  assert ((right (rect sprite) >? right container)%Z = false) as ->
    by (rewrite Z.gtb_ltb; apply Z.ltb_ge; lia).
  assert ((top (rect sprite) <? top container)%Z = false) as -> by (apply Z.ltb_ge; lia).
  assert ((bottom (rect sprite) >? bottom container)%Z = false) as ->
    by (rewrite Z.gtb_ltb; apply Z.ltb_ge; lia).
  reflexivity.
Qed.

(** X10: for a container whose left edge is at x = 0, a sprite past the
    left edge and moving left, or past the right edge and moving right,
    has its horizontal momentum negated and its x position moved back
    by twice the depth by which it crossed that edge. *)
Theorem X10_container_horizontal_bounce (dt : Q) (eid : nat) (container : Rect)
    (position momentum0 : Vector2) (sprite : ESprite) :
  left container = 0%Z ->
  let after := container_system dt eid container position momentum0 sprite in
  ((left (rect sprite) < left container)%Z /\ vx momentum0 < 0 ->
   vx (snd after) = - vx momentum0
   /\ vx (fst after)
      = vx position + inject_Z (2 * (left container - left (rect sprite))))
  /\ ((right (rect sprite) > right container)%Z /\ 0 < vx momentum0 ->
      vx (snd after) = - vx momentum0
      /\ vx (fst after)
         = vx position + inject_Z (2 * (right container - right (rect sprite)))).
Proof.
  intros H0 after. split.
  - intros [Hl Hm].
    pose proof (container_left_edge dt eid container position momentum0 sprite H0 Hl Hm) as Hb.
    unfold after. destruct (container_system _ _ _ _ _ _) as [p m]. exact Hb.
  - intros [Hr Hm]. unfold after, container_system. cbv zeta.
    assert (Qlt_bool (vx momentum0) 0 = false) as Hn.
    { destruct (Qlt_bool (vx momentum0) 0) eqn:E; [| reflexivity].
      apply Qlt_bool_iff in E. exfalso. apply (Qlt_irrefl 0).
      now apply Qlt_trans with (vx momentum0). }
    apply Qlt_bool_iff in Hm.
    assert ((right (rect sprite) >? right container)%Z = true) as Hr'
      by (apply Z.gtb_lt; lia).
    rewrite Hn, andb_false_r, Hr', Hm. cbn [andb].
    assert (right container = width container) as -> by (unfold right; lia).
    repeat match goal with
           | |- context [if ?b && ?c then _ else _] => destruct (b && c)
           end; cbn; split; reflexivity.
Qed.

(** X11: for a container whose top edge is at y = 0, a sprite that has
    not crossed the top edge, is past the bottom edge and moves down has
    its vertical momentum negated and its y position moved back by
    twice the depth by which it crossed the bottom edge. *)
Theorem X11_container_bottom_bounce (dt : Q) (eid : nat) (container : Rect)
    (position momentum0 : Vector2) (sprite : ESprite) :
  top container = 0%Z ->
  (top container <= top (rect sprite))%Z ->
  (bottom (rect sprite) > bottom container)%Z ->
  0 < vy momentum0 ->
  let after := container_system dt eid container position momentum0 sprite in
  vy (snd after) = - vy momentum0
  /\ vy (fst after)
     = vy position + inject_Z (2 * (bottom container - bottom (rect sprite))).
Proof.
  intros H0 Ht Hb Hm after.
  pose proof (container_bottom_edge dt eid container position momentum0 sprite H0 Ht Hb Hm) as Hc.
  unfold after. destruct (container_system _ _ _ _ _ _) as [p m]. exact Hc.
Qed.

(** A sprite of 20 by 20 well inside a container of 100 by 100. *)
Lemma X9_witness :
  container_system (1#60) 0 {| left := 0; top := 0; width := 100; height := 100 |}
    (Vec 50 50) (Vec (-3) 4) {| rect := {| left := 40; top := 40; width := 20; height := 20 |} |}
  = (Vec 50 50, Vec (-3) 4).
Proof.
  apply (X9_container_leaves_inner_sprites_alone (1#60) 0
           {| left := 0; top := 0; width := 100; height := 100 |} (Vec 50 50) (Vec (-3) 4)
           {| rect := {| left := 40; top := 40; width := 20; height := 20 |} |});
    vm_compute; discriminate.
Defined.

(** 5 units past the left edge moving left; 5 units past the right edge
    moving right. *)
Lemma X10_witness :
  (vx (snd (container_system (1#60) 0 {| left := 0; top := 0; width := 100; height := 100 |}
              (Vec 5 50) (Vec (-3) 0)
              {| rect := {| left := -5; top := 40; width := 20; height := 20 |} |})) = - -3
   /\ vx (fst (container_system (1#60) 0 {| left := 0; top := 0; width := 100; height := 100 |}
                 (Vec 5 50) (Vec (-3) 0)
                 {| rect := {| left := -5; top := 40; width := 20; height := 20 |} |}))
      = 5 + inject_Z 10)
  /\ (vx (snd (container_system (1#60) 0 {| left := 0; top := 0; width := 100; height := 100 |}
                 (Vec 95 50) (Vec 3 0)
                 {| rect := {| left := 85; top := 40; width := 20; height := 20 |} |})) = - 3
      /\ vx (fst (container_system (1#60) 0
                    {| left := 0; top := 0; width := 100; height := 100 |}
                    (Vec 95 50) (Vec 3 0)
                    {| rect := {| left := 85; top := 40; width := 20; height := 20 |} |}))
         = 95 + inject_Z (-10)).
Proof.
  destruct (X10_container_horizontal_bounce (1#60) 0
              {| left := 0; top := 0; width := 100; height := 100 |} (Vec 5 50) (Vec (-3) 0)
              {| rect := {| left := -5; top := 40; width := 20; height := 20 |} |} eq_refl)
    as [Hleft _].
  destruct (X10_container_horizontal_bounce (1#60) 0
              {| left := 0; top := 0; width := 100; height := 100 |} (Vec 95 50) (Vec 3 0)
              {| rect := {| left := 85; top := 40; width := 20; height := 20 |} |} eq_refl)
    as [_ Hright].
  split; [apply Hleft | apply Hright]; split; vm_compute; reflexivity.
Defined.

(** 5 units past the bottom edge moving down. *)
Lemma X11_witness :
  vy (snd (container_system (1#60) 0 {| left := 0; top := 0; width := 100; height := 100 |}
             (Vec 50 95) (Vec 0 3)
             {| rect := {| left := 40; top := 85; width := 20; height := 20 |} |})) = - 3
  /\ vy (fst (container_system (1#60) 0 {| left := 0; top := 0; width := 100; height := 100 |}
                (Vec 50 95) (Vec 0 3)
                {| rect := {| left := 40; top := 85; width := 20; height := 20 |} |}))
     = 95 + inject_Z (-10).
Proof.
  apply (X11_container_bottom_bounce (1#60) 0
           {| left := 0; top := 0; width := 100; height := 100 |} (Vec 50 95) (Vec 0 3)
           {| rect := {| left := 40; top := 85; width := 20; height := 20 |} |}).
  - reflexivity.
  - vm_compute. discriminate.
  - reflexivity.
  - reflexivity.
Defined.

(** ** Particle glue in general *)

Lemma particle_rsai_system_channels (t dt : Q) (eid : nat) (p : Particle) (d : RSAImage.t) :
  particle_rsai_system t dt eid p d
  = RSAImage.Make (channel (rotate p) t (RSAImage.rotate d))
      (channel (scale p) t (RSAImage.scale d))
      (channel (alpha p) t (RSAImage.alpha d)) false.
Proof.
  unfold particle_rsai_system, particle_rsai_writes.
  destruct (rotate p), (scale p), (alpha p); reflexivity.
Qed.

(** X12: for every particle, each of the three channels of the
    descriptor independently takes its driver's current value when the
    particle has that driver and keeps its value when it has not, and
    the lock is off on return; a particle without drivers only clears
    the lock. *)
Theorem X12_rsai_channel_by_channel (t dt : Q) (eid : nat) (p : Particle) (d : RSAImage.t) :
  let d' := particle_rsai_system t dt eid p d in
  RSAImage.rotate d'
    = match rotate p with Some l => LerpThing.v l t | None => RSAImage.rotate d end
  /\ RSAImage.scale d'
     = match scale p with Some l => LerpThing.v l t | None => RSAImage.scale d end
  /\ RSAImage.alpha d'
     = match alpha p with Some l => LerpThing.v l t | None => RSAImage.alpha d end
  /\ RSAImage.lock d' = false
  /\ particle_rsai_system t dt eid {| rotate := None; scale := None; alpha := None |} d
     = RSAImage.write d (RSAImage.SetLock false).
Proof. cbv zeta. rewrite particle_rsai_system_channels. repeat split. Qed.

(** X13: the glue keeps no history: after any frames, the descriptor is
    what a single update at the last instant makes of the initial one;
    in particular a second update at the same instant changes
    nothing. *)
Theorem X13_rsai_last_frame_wins (frames : list Q) (t : Q) (p : Particle) (d : RSAImage.t) :
  particle_rsai_frames (frames ++ [t]) p d = particle_rsai_system t 0 0%nat p d
  /\ particle_rsai_system t 0 0%nat p (particle_rsai_system t 0 0%nat p d)
     = particle_rsai_system t 0 0%nat p d.
Proof.
  assert (forall t' d0, particle_rsai_system t 0 0%nat p (particle_rsai_system t' 0 0%nat p d0)
                        = particle_rsai_system t 0 0%nat p d0) as Hover.
  { intros t' d0. rewrite !particle_rsai_system_channels. unfold channel.
    destruct (rotate p), (scale p), (alpha p); reflexivity. }
  split; [| apply Hover].
  revert d. induction frames as [| t' ts IH]; intros d; [reflexivity |].
  cbn [app particle_rsai_frames]. rewrite IH. apply Hover.
Qed.

(** X14: for every particle, the writes of one update are a lock, at
    most three field writes and an unlock, in this order; the
    descriptor is locked after the first write and after every field
    write, and unlocked on return. *)
Theorem X14_rsai_lock_brackets_every_write (t dt : Q) (eid : nat) (p : Particle)
    (d : RSAImage.t) :
  exists fields : list RSAImage.Write,
    particle_rsai_writes t p = RSAImage.SetLock true :: fields ++ [RSAImage.SetLock false]
    /\ forallb (fun a => negb (RSAImage.is_lock a)) fields = true
    /\ Forall (fun d' => RSAImage.lock d' = true) (observed d (RSAImage.SetLock true :: fields))
    /\ RSAImage.lock (particle_rsai_system t dt eid p d) = false
    /\ (length fields <= 3)%nat.
Proof.
  destruct (particle_rsai_bracket t p d) as (fields & Hw & Hn & Hl).
  exists fields. repeat split; try assumption.
  - apply particle_rsai_system_lock.
  - assert (length (particle_rsai_writes t p) <= 5)%nat as Hlen
      by (unfold particle_rsai_writes; destruct (rotate p), (scale p), (alpha p); cbn; lia).
    rewrite Hw in Hlen. cbn in Hlen. rewrite length_app in Hlen. cbn in Hlen. lia.
Qed.

(** ** The interpolation helpers of zones.py *)

(** X15: for [a <= b] and [t] in [0,1], [_lerp(a, b, t)] lies between
    [a] and [b]; it is [a] at 0 and [b] at 1. *)
Theorem X15_lerp_stays_between (a b t : Q) :
  a <= b -> 0 <= t -> t <= 1 ->
  a <= _lerp a b t /\ _lerp a b t <= b /\ _lerp a b 0 == a /\ _lerp a b 1 == b.
Proof.
  intros Hab H0 H1. unfold _lerp.
  assert (0 <= (b - a) * t) as Hp by (apply Qmult_le_0_compat; Lqa.lra).
  assert (0 <= (b - a) * (1 - t)) as Hq by (apply Qmult_le_0_compat; Lqa.lra).
  assert ((1 - t) * a + b * t == a + (b - a) * t) as E1 by ring.
  assert ((1 - t) * a + b * t == b - (b - a) * (1 - t)) as E2 by ring.
  split; [rewrite E1; Lqa.lra |]. split; [rewrite E2; Lqa.lra |]. split; ring.
Qed.

Lemma inv_lerp_some (a b v : Q) :
  ~ a == b -> _inv_lerp a b v = Some ((v - a) / (b - a)).
Proof.
  intros Hne. unfold _inv_lerp. destruct (Qeq_bool (b - a) 0) eqn:E; [| reflexivity].
  apply Qeq_bool_iff in E. exfalso. apply Hne. Lqa.lra.
Qed.

(** X16: [_inv_lerp(a, b, x)] fails (division by zero) when [a] and [b]
    are the same number; otherwise [_inv_lerp] and [_lerp] invert each
    other, in both orders. *)
Theorem X16_inv_lerp_inverts_lerp (a b x : Q) :
  (a == b -> _inv_lerp a b x = None)
  /\ (~ a == b ->
      exists t v : Q,
        _inv_lerp a b (_lerp a b x) = Some t /\ t == x
        /\ _inv_lerp a b x = Some v /\ _lerp a b v == x).
Proof.
  split.
  - intros Hab. unfold _inv_lerp.
    assert (Qeq_bool (b - a) 0 = true) as -> by (apply Qeq_bool_iff; Lqa.lra). reflexivity.
  - intros Hne. exists ((_lerp a b x - a) / (b - a)), ((x - a) / (b - a)).
    rewrite !inv_lerp_some by exact Hne.
    assert (~ b - a == 0) as Hd by (intros E; apply Hne; Lqa.lra).
    repeat split; unfold _lerp; field; exact Hd.
Qed.

(** X17: [_remap(a0, a1, b0, b1, v)] fails exactly when [a0] and [a1]
    are the same number; otherwise it sends [a0] to [b0] and [a1] to
    [b1], and remapping back from a non-degenerate target range returns
    [v]. *)
Theorem X17_remap_round_trip (a0 a1 b0 b1 v : Q) :
  (_remap a0 a1 b0 b1 v = None <-> a0 == a1)
  /\ (~ a0 == a1 ->
      exists lo hi : Q,
        _remap a0 a1 b0 b1 a0 = Some lo /\ lo == b0
        /\ _remap a0 a1 b0 b1 a1 = Some hi /\ hi == b1)
  /\ (~ a0 == a1 -> ~ b0 == b1 ->
      exists u w : Q,
        _remap a0 a1 b0 b1 v = Some u /\ _remap b0 b1 a0 a1 u = Some w /\ w == v).
Proof.
  assert (~ a0 == a1 -> ~ a1 - a0 == 0) as Hda by (intros Hne E; apply Hne; Lqa.lra).
  split; [| split].
  - unfold _remap, _inv_lerp. split.
    + destruct (Qeq_bool (a1 - a0) 0) eqn:E; [| discriminate].
      intros _. apply Qeq_bool_iff in E. Lqa.lra.
    + intros Hab. assert (Qeq_bool (a1 - a0) 0 = true) as ->
        by (apply Qeq_bool_iff; Lqa.lra).
      reflexivity.
  - intros Hne. unfold _remap. rewrite !inv_lerp_some by exact Hne.
    eexists. eexists. split; [reflexivity |]. split; [| split; [reflexivity |]];
      unfold _lerp; field; exact (Hda Hne).
  - intros Hna Hnb. unfold _remap. rewrite inv_lerp_some by assumption.
    eexists. eexists. split; [reflexivity |].
    rewrite inv_lerp_some by assumption. split; [reflexivity |].
    assert (~ b1 - b0 == 0) as Hdb by (intros E; apply Hnb; Lqa.lra).
    unfold _lerp. field. split; [exact (Hda Hna) | exact Hdb].
Qed.

(** An angle a quarter of the way from 90 to 270 degrees. *)
Lemma X15_witness :
  90 <= _lerp 90 270 (1#4) /\ _lerp 90 270 (1#4) <= 270
  /\ _lerp 90 270 0 == 90 /\ _lerp 90 270 1 == 270.
Proof.
  apply (X15_lerp_stays_between 90 270 (1#4)); vm_compute; discriminate.
Defined.

(** From 2 to 6: 3 is a quarter of the way, and a quarter of the way is 3. *)
Lemma X16_witness :
  exists t v : Q,
    _inv_lerp 2 6 (_lerp 2 6 3) = Some t /\ t == 3
    /\ _inv_lerp 2 6 3 = Some v /\ _lerp 2 6 v == 3.
Proof.
  destruct (X16_inv_lerp_inverts_lerp 2 6 3) as [_ Hround].
  apply Hround. vm_compute. discriminate.
Defined.

(** Degrees Celsius to Fahrenheit and back. *)
Lemma X17_witness :
  exists u w : Q,
    _remap 0 100 32 212 37 = Some u /\ _remap 32 212 0 100 u = Some w /\ w == 37.
Proof.
  destruct (X17_remap_round_trip 0 100 32 212 37) as (_ & _ & Hback).
  apply Hback; vm_compute; discriminate.
Defined.

(** ** ZoneRect and ZoneLine *)

Lemma inject_Z_sub (a b : Z) : inject_Z a - inject_Z b == inject_Z (a - b).
Proof. unfold Qeq, inject_Z, Qminus, Qplus, Qopp. cbn. lia. Qed.

(** X18: the momentum that [ZoneRect.emit] returns is the position
    minus the rectangle's centre, so it is integer-valued too, and it
    is the same vector as the position exactly when the rectangle is
    centred on the origin. *)
Theorem X18_rect_momentum_is_offset_from_centre (z : ZoneRect.t) (t : Q) :
  let position := fst (fst (ZoneRect.emit z t)) in
  let momentum0 := snd (fst (ZoneRect.emit z t)) in
  momentum0 = vsub position (center (ZoneRect.r z))
  /\ (exists mx my : Z, veq momentum0 (Vec (inject_Z mx) (inject_Z my)))
  /\ (veq momentum0 position <-> veq (center (ZoneRect.r z)) vzero).
Proof.
  cbv zeta. split; [reflexivity |]. split.
  - exists (int (inject_Z (width (ZoneRect.r z))
                 * (draws (ZoneRect.rnd_p z) (drawn (ZoneRect.rnd_p z)) - (1#2)))
            - (left (ZoneRect.r z) + Z.quot (width (ZoneRect.r z)) 2))%Z,
           (int (inject_Z (height (ZoneRect.r z))
                 * (draws (ZoneRect.rnd_p z) (S (drawn (ZoneRect.rnd_p z))) - (1#2)))
            - (top (ZoneRect.r z) + Z.quot (height (ZoneRect.r z)) 2))%Z.
    unfold veq. cbn [vx vy vsub center ZoneRect.emit draw fst snd].
    split; apply inject_Z_sub.
  - unfold veq. cbn. split; intros [Hx Hy]; split; Lqa.lra.
Qed.

(** The centred rectangle returns its position as momentum; the one
    anchored at its corner does not. *)
Example rect_momentum_samples :
  fst (ZoneRect.emit centred_rect_demo 0) = (Vec 1 (-1), Vec (1 - 0) (-1 - 0))
  /\ fst (ZoneRect.emit rect_demo 0) = (Vec 1 (-1), Vec (1 - 1) (-1 - 2)).
Proof. split; reflexivity. Qed.

Lemma rect_spawn_draws (n : nat) (t : Q) (i : Z) (p m : Vector2) (z z' : ZoneRect.t)
    (calls : list Call) :
  spawn n t i p m z = (z', calls) ->
  drawn (ZoneRect.rnd_p z') = (drawn (ZoneRect.rnd_p z) + 2 * n)%nat
  /\ draws (ZoneRect.rnd_p z') = draws (ZoneRect.rnd_p z)
  /\ ZoneRect.rnd_m z' = ZoneRect.rnd_m z
  /\ ZoneRect.r z' = ZoneRect.r z.
Proof.
  revert z calls. induction n as [| n IH]; intros z calls; cbn [spawn].
  - intros [= <- <-]. repeat split; first [reflexivity | lia].
  - unfold emit, ZoneRect_Zone, ZoneRect.emit, draw at 1 2. cbn [fst snd draws drawn].
    match goal with
    | |- context [spawn n t i p m ?z1] =>
        destruct (spawn n t i p m z1) as [z2 calls2] eqn:Hs
    end.
    intros [= <- <-]. destruct (IH _ _ Hs) as (H1 & H2 & H3 & H4). cbn in *.
    repeat split; first [assumption | lia].
Qed.

Lemma line_spawn_draws (n : nat) (t : Q) (i : Z) (p m : Vector2) (z z' : ZoneLine.t)
    (calls : list Call) :
  spawn n t i p m z = (z', calls) ->
  drawn (ZoneLine.rnd_p z') = (drawn (ZoneLine.rnd_p z) + n)%nat
  /\ drawn (ZoneLine.rnd_m z') = (drawn (ZoneLine.rnd_m z) + n)%nat
  /\ ZoneLine.v z' = ZoneLine.v z /\ ZoneLine.speed z' = ZoneLine.speed z
  /\ ZoneLine.variance z' = ZoneLine.variance z.
Proof.
  revert z calls. induction n as [| n IH]; intros z calls; cbn [spawn].
  - intros [= <- <-]. repeat split; first [reflexivity | lia].
  - unfold emit, ZoneLine_Zone, ZoneLine.emit, draw at 1 2. cbn [fst snd draws drawn].
    match goal with
    | |- context [spawn n t i p m ?z1] =>
        destruct (spawn n t i p m z1) as [z2 calls2] eqn:Hs
    end.
    intros [= <- <-]. destruct (IH _ _ Hs) as (H1 & H2 & H3 & H4 & H5). cbn in *.
    repeat split; first [assumption | lia].
Qed.

(** X19: an emitter over a [ZoneRect] draws two values from [rnd_p]
    for each particle it spawns and never calls [rnd_m]; over a
    [ZoneLine] it draws one value from [rnd_p] and one from [rnd_m] for
    each particle; an update that spawns nothing draws nothing. *)
Theorem X19_random_draws_per_particle (f : Frame) :
  (forall e : Emitter ZoneRect.t,
     let z := zone e in
     let z' := zone (fst (update e f)) in
     drawn (ZoneRect.rnd_p z')
       = (drawn (ZoneRect.rnd_p z) + 2 * spawned (snd (update e f)))%nat
     /\ ZoneRect.rnd_m z' = ZoneRect.rnd_m z)
  /\ (forall e : Emitter ZoneLine.t,
        let z := zone e in
        let z' := zone (fst (update e f)) in
        drawn (ZoneLine.rnd_p z') = (drawn (ZoneLine.rnd_p z) + spawned (snd (update e f)))%nat
        /\ drawn (ZoneLine.rnd_m z')
           = (drawn (ZoneLine.rnd_m z) + spawned (snd (update e f)))%nat).
Proof.
  split; intros e z z'; destruct (update_zone e f) as (n & t & Hu & Hz);
    unfold z'; rewrite Hz; rewrite Hu; cbn [snd]; rewrite spawn_factory_count.
  - destruct (rect_spawn_draws n t (inherit_momentum e) (f_position f)
                (entity_momentum (f_world f) (f_eid f) e) (zone e) _ _
                (surjective_pairing _)) as (H1 & _ & H3 & _).
    split; assumption.
  - destruct (line_spawn_draws n t (inherit_momentum e) (f_position f)
                (entity_momentum (f_world f) (f_eid f) e) (zone e) _ _
                (surjective_pairing _)) as (H1 & H2 & _).
    split; assumption.
Qed.

Lemma Qabs_scale_ge (x k : Q) : 1 <= k -> Qabs x <= Qabs (x * k).
Proof.
  intros Hk. rewrite Qabs_Qmult, (Qabs_pos k) by Lqa.lra.
  assert (0 <= Qabs x * (k - 1)) as Hx
    by (apply Qmult_le_0_compat; [apply Qabs_nonneg | Lqa.lra]).
  assert (Qabs x * k == Qabs x + Qabs x * (k - 1)) as E by ring.
  rewrite E. Lqa.lra.
Qed.

(** X20: with a variance of at least 0 and draws in [0,1),
    [ZoneLine.emit] returns a point of the segment from the origin to
    [v] and the momentum [speed] scaled by a factor between 1 and
    1 + variance: never less than [speed], and [speed] itself when the
    variance is 0. *)
Theorem X20_line_sample (z : ZoneLine.t) (t : Q) :
  0 <= ZoneLine.variance z ->
  (forall n, 0 <= draws (ZoneLine.rnd_p z) n /\ draws (ZoneLine.rnd_p z) n < 1) ->
  (forall n, 0 <= draws (ZoneLine.rnd_m z) n /\ draws (ZoneLine.rnd_m z) n < 1) ->
  let position := fst (fst (ZoneLine.emit z t)) in
  let momentum0 := snd (fst (ZoneLine.emit z t)) in
  (exists s k : Q,
     0 <= s /\ s < 1 /\ 1 <= k /\ k <= 1 + ZoneLine.variance z
     /\ position = vscale (ZoneLine.v z) s
     /\ momentum0 = vscale (ZoneLine.speed z) k)
  /\ (ZoneLine.variance z == 0 -> veq momentum0 (ZoneLine.speed z))
  /\ Qabs (vx (ZoneLine.speed z)) <= Qabs (vx momentum0)
  /\ Qabs (vy (ZoneLine.speed z)) <= Qabs (vy momentum0).
Proof.
  intros Hv Hp Hm. cbv zeta. unfold ZoneLine.emit, draw. cbn [fst snd].
  destruct (Hp (drawn (ZoneLine.rnd_p z))) as [Hp0 Hp1].
  destruct (Hm (drawn (ZoneLine.rnd_m z))) as [Hm0 Hm1].
  set (s := draws (ZoneLine.rnd_p z) (drawn (ZoneLine.rnd_p z))) in *.
  set (m := draws (ZoneLine.rnd_m z) (drawn (ZoneLine.rnd_m z))) in *.
  assert (0 <= m * ZoneLine.variance z) as Hmv by (apply Qmult_le_0_compat; assumption).
  assert (m * ZoneLine.variance z <= ZoneLine.variance z) as Hmv'.
  { assert (0 <= (1 - m) * ZoneLine.variance z) as Hx
      by (apply Qmult_le_0_compat; Lqa.lra).
    assert ((1 - m) * ZoneLine.variance z == ZoneLine.variance z - m * ZoneLine.variance z) as E
      by ring.
    rewrite E in Hx. Lqa.lra. }
  split; [| split].
  - exists s, (1 + m * ZoneLine.variance z). repeat split; try assumption; Lqa.lra.
  - intros H0. unfold veq, vscale. cbn. rewrite H0. split; ring.
  - unfold vscale. cbn [vx vy]. split; apply Qabs_scale_ge; Lqa.lra.
Qed.

(** A line to (10,0) with speed (0,4) and variance 0.5: the draws 0.25
    and 0.5 give the point (2.5,0) and the momentum (0,5). *)
Lemma X20_witness :
  (exists s k : Q,
     0 <= s /\ s < 1 /\ 1 <= k /\ k <= 1 + (1#2)
     /\ fst (fst (ZoneLine.emit line_demo 0)) = vscale (Vec 10 0) s
     /\ snd (fst (ZoneLine.emit line_demo 0)) = vscale (Vec 0 4) k)
  /\ veq (fst (fst (ZoneLine.emit line_demo 0))) (Vec (5#2) 0)
  /\ veq (snd (fst (ZoneLine.emit line_demo 0))) (Vec 0 5).
Proof.
  destruct (X20_line_sample line_demo 0) as (Hsample & _).
  - vm_compute. discriminate.
  - intros n. split; vm_compute; (discriminate || reflexivity).
  - intros n. split; vm_compute; (discriminate || reflexivity).
  - split; [exact Hsample |]. split; split; reflexivity.
Defined.

(** ** ZoneCircle, ZonePoint and ZoneBeam *)

Section RealZoneFacts.
Import ZoneBeam.
Local Open Scope R_scope.

Lemma magnitude_rotate (a : RVector2) (degrees : R) :
  magnitude (Vector2_rotate a degrees) = magnitude a.
Proof.
  unfold magnitude. f_equal. unfold dot, Vector2_rotate. cbn.
  set (theta := degrees * PI / 180).
  pose proof (sin2_cos2 theta) as Hsc. unfold Rsqr in Hsc.
  replace ((rx a * cos theta - ry a * sin theta) * (rx a * cos theta - ry a * sin theta)
           + (rx a * sin theta + ry a * cos theta) * (rx a * sin theta + ry a * cos theta))
    with ((rx a * rx a + ry a * ry a) * (sin theta * sin theta + cos theta * cos theta))
    by ring.
  rewrite Hsc. ring.
Qed.

Lemma magnitude_on_axis (x : R) : magnitude (RVec x 0) = Rabs x.
Proof.
  unfold magnitude, dot. cbn. replace (x * x + 0 * 0) with (x²) by (unfold Rsqr; ring).
  apply sqrt_Rsqr_abs.
Qed.

Lemma magnitude_zero (a : RVector2) : magnitude a = 0 <-> rx a = 0 /\ ry a = 0.
Proof.
  unfold magnitude. split.
  - intros H0. apply sqrt_eq_0 in H0; [| apply dot_self_nonneg].
    unfold dot in H0. split; Lra.nra.
  - intros [Hx Hy]. unfold dot. rewrite Hx, Hy.
    replace (0 * 0 + 0 * 0) with 0 by ring. apply sqrt_0.
Qed.

(** X21: for [0 <= r0 <= r1] and a radius draw in [0,1),
    [ZoneCircle.emit] returns one vector as position and as momentum,
    its length lies between [r0] and [r1], and [rnd_m] is not called:
    the angle comes from the module's [random()]. *)
Theorem X21_circle_sample (z : ZoneCircle.t) (time : option R) (random : Rnd R) :
  0 <= ZoneCircle.r0 z <= ZoneCircle.r1 z ->
  0 <= draws (ZoneCircle.rnd_p z) (drawn (ZoneCircle.rnd_p z)) < 1 ->
  let position := fst (fst (ZoneCircle.emit z time random)) in
  let momentum0 := snd (fst (ZoneCircle.emit z time random)) in
  momentum0 = position
  /\ ZoneCircle.r0 z <= magnitude position <= ZoneCircle.r1 z
  /\ ZoneCircle.rnd_m (fst (snd (ZoneCircle.emit z time random))) = ZoneCircle.rnd_m z
  /\ drawn (snd (snd (ZoneCircle.emit z time random))) = S (drawn random).
Proof.
  intros Hr Hp. cbv zeta. unfold ZoneCircle.emit, draw. cbn [fst snd drawn].
  split; [reflexivity |]. split; [| split; reflexivity].
  rewrite magnitude_rotate, magnitude_on_axis.
  set (p := draws (ZoneCircle.rnd_p z) (drawn (ZoneCircle.rnd_p z))) in *.
  assert (0 <= (ZoneCircle.r1 z - ZoneCircle.r0 z) * p <= ZoneCircle.r1 z - ZoneCircle.r0 z)
    as Hb by Lra.nra.
  rewrite Rabs_right by Lra.lra. Lra.lra.
Qed.

(** X22: [ZonePoint.emit] always returns the position (0,0); with a
    first draw [s] in [0,1) the length of the momentum is [|speed| * s],
    at most [|speed|]; with the default speed of 0 the momentum is the
    zero vector; each call consumes two values of [random()]. *)
Theorem X22_point_sample (z : ZonePoint.t) (time : option R) (random : Rnd R) :
  0 <= draws random (drawn random) < 1 ->
  let position := fst (fst (ZonePoint.emit z time random)) in
  let momentum0 := snd (fst (ZonePoint.emit z time random)) in
  position = RVec 0 0
  /\ magnitude momentum0 = Rabs (ZonePoint.speed z) * draws random (drawn random)
  /\ magnitude momentum0 <= Rabs (ZonePoint.speed z)
  /\ (ZonePoint.speed z = 0 -> momentum0 = RVec 0 0)
  /\ drawn (snd (ZonePoint.emit z time random)) = (2 + drawn random)%nat.
Proof.
  intros Hs. cbv zeta. unfold ZonePoint.emit, draw. cbn [fst snd draws drawn].
  set (s := draws random (drawn random)) in *.
  split; [reflexivity |].
  assert (magnitude (Vector2_rotate (RVec (ZonePoint.speed z * s) 0)
                       (ZonePoint._lerp (ZonePoint.phi0 z) (ZonePoint.phi1 z)
                          (draws random (S (drawn random)))))
          = Rabs (ZonePoint.speed z) * s) as Hm.
  { rewrite magnitude_rotate, magnitude_on_axis, Rabs_mult, (Rabs_right s) by Lra.lra.
    reflexivity. }
  split; [exact Hm |]. split; [| split; [| reflexivity]].
  - rewrite Hm. pose proof (Rabs_pos (ZonePoint.speed z)). Lra.nra.
  - intros H0. unfold Vector2_rotate. cbn. rewrite H0. f_equal; ring.
Qed.

(** X23: constructing a [ZoneBeam] fails (the [ValueError] of
    [normalize]) exactly for the zero vector; otherwise the beam keeps
    [v] and the two random functions, and its [w] has length
    [|width|]. *)
Theorem X23_beam_rejects_only_the_zero_vector (v0 : RVector2) (width0 : R) (p m : Rnd R) :
  (new v0 width0 p m = None <-> rx v0 = 0 /\ ry v0 = 0)
  /\ (forall z, new v0 width0 p m = Some z ->
        v z = v0 /\ magnitude (w z) = Rabs width0 /\ rnd_p z = p /\ rnd_m z = m).
Proof.
  split.
  - unfold new, normalize.
    destruct (Req_dec_T (magnitude (RVec (ry v0) (rx v0))) 0) as [E | E].
    + split; [intros _ | reflexivity]. apply magnitude_zero in E. cbn in E. tauto.
    + split; [discriminate |]. intros [Hx Hy]. exfalso. apply E.
      apply magnitude_zero. cbn. tauto.
  - intros z Hz. unfold new in Hz.
    destruct (normalize (RVec (ry v0) (rx v0))) as [n |] eqn:En; [| discriminate].
    injection Hz as <-. cbn. repeat split.
    rewrite magnitude_rscale, (magnitude_normalize _ _ En). ring.
Qed.

(** X24: for a beam of width at least 0 and a momentum draw in [0,1),
    the momentum of a sample is at most [width / 2] long, and the
    position is [v] scaled by the position draw plus that momentum. *)
Theorem X24_beam_sample_geometry (v0 : RVector2) (width0 : R) (p m : Rnd R) (z : t) :
  new v0 width0 p m = Some z ->
  0 <= width0 ->
  0 <= draws m (drawn m) < 1 ->
  magnitude (snd (sample z)) <= width0 / 2
  /\ fst (sample z) = radd (rscale v0 (draws p (drawn p))) (snd (sample z)).
Proof.
  intros Hz Hw Hm. split; [exact (beam_momentum_bound v0 width0 p m z Hz Hw Hm) |].
  rewrite beam_position. unfold new in Hz.
  destruct (normalize (RVec (ry v0) (rx v0))); [| discriminate].
  injection Hz as <-. reflexivity.
Qed.

(** X25: for a beam along the x axis or along the y axis, the momentum
    of every sample is perpendicular to the beam. *)
Theorem X25_beam_perpendicular_when_axis_aligned (v0 : RVector2) (width0 : R)
    (p m : Rnd R) (z : t) :
  new v0 width0 p m = Some z ->
  rx v0 = 0 \/ ry v0 = 0 ->
  dot (snd (sample z)) v0 = 0.
Proof.
  intros Hz Haxis. rewrite (beam_momentum_dot v0 width0 p m z Hz).
  destruct Haxis as [-> | ->]; unfold Rdiv; ring.
Qed.

(** The default circle with a radius draw of 0.5. *)
Lemma X21_witness :
  snd (fst (ZoneCircle.emit (ZoneCircle.default (const_rnd (1/2)) (const_rnd 0)) None
              (const_rnd (1/4))))
  = fst (fst (ZoneCircle.emit (ZoneCircle.default (const_rnd (1/2)) (const_rnd 0)) None
                (const_rnd (1/4))))
  /\ 0 <= magnitude (fst (fst (ZoneCircle.emit
                                 (ZoneCircle.default (const_rnd (1/2)) (const_rnd 0)) None
                                 (const_rnd (1/4))))) <= 64.
Proof.
  destruct (X21_circle_sample (ZoneCircle.default (const_rnd (1/2)) (const_rnd 0)) None
              (const_rnd (1/4))) as (Hsame & Hlen & _).
  - cbn. Lra.lra.
  - cbn. Lra.lra.
  - split; [exact Hsame | exact Hlen].
Defined.

(** A point zone of speed 8 with a first draw of 0.5. *)
Lemma X22_witness :
  fst (fst (ZonePoint.emit (ZonePoint.Make 8 0 360) None (const_rnd (1/2)))) = RVec 0 0
  /\ magnitude (snd (fst (ZonePoint.emit (ZonePoint.Make 8 0 360) None (const_rnd (1/2)))))
     <= Rabs 8.
Proof.
  destruct (X22_point_sample (ZonePoint.Make 8 0 360) None (const_rnd (1/2)))
    as (Hpos & _ & Hlen & _).
  - cbn. Lra.lra.
  - split; [exact Hpos | exact Hlen].
Defined.

Lemma beam_along_x :
  new (RVec 5 0) 10 (const_rnd (1/2)) (const_rnd 0)
  = Some (Make (RVec 5 0) (rscale (RVec (0 / 5) (5 / 5)) 10) (const_rnd (1/2)) (const_rnd 0)).
Proof.
  unfold new, normalize. cbn [rx ry].
  assert (magnitude (RVec 0 5) = 5) as ->.
  { unfold magnitude, dot. cbn. replace (0 * 0 + 5 * 5) with (5 * 5) by ring.
    apply sqrt_square. Lra.lra. }
  destruct (Req_dec_T 5 0) as [E | _]; [Lra.lra | reflexivity].
Qed.

(** The beam (5,0) of width 10. *)
Lemma X24_witness :
  magnitude (snd (sample (Make (RVec 5 0) (rscale (RVec (0 / 5) (5 / 5)) 10)
                            (const_rnd (1/2)) (const_rnd 0)))) <= 10 / 2
  /\ fst (sample (Make (RVec 5 0) (rscale (RVec (0 / 5) (5 / 5)) 10)
                    (const_rnd (1/2)) (const_rnd 0)))
     = radd (rscale (RVec 5 0) (1/2))
         (snd (sample (Make (RVec 5 0) (rscale (RVec (0 / 5) (5 / 5)) 10)
                         (const_rnd (1/2)) (const_rnd 0)))).
Proof.
  apply (X24_beam_sample_geometry (RVec 5 0) 10 (const_rnd (1/2)) (const_rnd 0)).
  - exact beam_along_x.
  - Lra.lra.
  - cbn. Lra.lra.
Defined.

(** The same beam: its momentum is perpendicular to (5,0). *)
Lemma X25_witness :
  dot (snd (sample (Make (RVec 5 0) (rscale (RVec (0 / 5) (5 / 5)) 10)
                      (const_rnd (1/2)) (const_rnd 0)))) (RVec 5 0) = 0.
Proof.
  apply (X25_beam_perpendicular_when_axis_aligned (RVec 5 0) 10 (const_rnd (1/2))
           (const_rnd 0)).
  - exact beam_along_x.
  - right. reflexivity.
Defined.

End RealZoneFacts.
